(** * MOSDAC crawler, indexer and chatbot: a shallow embedding

    The development follows the three Python modules of the repository:
    [scraper.py] (class [MOSDACScraper]), [indexer.py] (class
    [MOSDACIndexer]) and [chatbot.py] (class [MOSDACChatbot]).

    Conventions.
    - A Python [str] is a Rocq [string], i.e. a sequence of bytes; case
      conversion acts on the ASCII letters only.  Every literal the code
      searches for is ASCII.
    - A relevance score is a Python float built by adding the constants
      3.0, 2.0, 1.5, 1.0, 0.5, 0.3 and 0.2.  It is represented exactly, as
      an integer number of tenths ([30] stands for 3.0); the rounding of
      the float additions is not modelled.  The sums below 0.5 are 0, 0.2
      and 0.4, so the comparison with the threshold is the same in both.
    - Code that can raise returns a [result]; code that mutates an object
      returns the new value of that object next to its result.
    - The browser, the clock, the file system, PostgreSQL, NLTK and
      [textwrap] are collaborators: they are fields of the classes
      [Browser], [Postgres] and [Nltk]. *)

From Stdlib Require Import ZArith Ascii String List Bool Lia.
From stdpp Require Import base decidable option list gmap strings pretty sorting.

Local Open Scope Z_scope.

(* ================================================================= *)
(** ** Python string operations used by the code *)

Module PyStr.

Definition is_upper (c : ascii) : bool :=
  let n := nat_of_ascii c in (65 <=? n)%nat && (n <=? 90)%nat.

Definition is_lower (c : ascii) : bool :=
  let n := nat_of_ascii c in (97 <=? n)%nat && (n <=? 122)%nat.

Definition lower_char (c : ascii) : ascii :=
  if is_upper c then ascii_of_nat (nat_of_ascii c + 32) else c.

Definition upper_char (c : ascii) : ascii :=
  if is_lower c then ascii_of_nat (nat_of_ascii c - 32) else c.

(** [s.lower()] on ASCII text.  Python also lower-cases the letters of
    other scripts, and a capital sigma by what stands next to it; no
    text the code searches for contains such a letter. *)
Fixpoint lower (s : string) : string :=
  match s with
  | EmptyString => EmptyString
  | String c r => String (lower_char c) (lower r)
  end.

(** [s.upper()] on ASCII text. *)
Fixpoint upper (s : string) : string :=
  match s with
  | EmptyString => EmptyString
  | String c r => String (upper_char c) (upper r)
  end.

(** [s.startswith(p)] *)
Fixpoint startswith (s p : string) : bool :=
  match p, s with
  | EmptyString, _ => true
  | String _ _, EmptyString => false
  | String a p', String b s' => Ascii.eqb a b && startswith s' p'
  end.

(** [p in s] *)
Fixpoint str_in (p s : string) : bool :=
  startswith s p ||
  match s with
  | EmptyString => false
  | String _ r => str_in p r
  end.

(** [s.find(p)]: offset of the first occurrence of [p], or [-1].  The
    offset counts bytes; on ASCII text it is Python's. *)
Fixpoint find (s p : string) : Z :=
  if startswith s p then 0
  else match s with
       | EmptyString => -1
       | String _ r => let i := find r p in if i <? 0 then -1 else i + 1
       end.

(** [s.rstrip(ch)] for a one-character argument. *)
Fixpoint rstrip (ch : ascii) (s : string) : string :=
  match s with
  | EmptyString => EmptyString
  | String c r =>
      match rstrip ch r with
      | EmptyString => if Ascii.eqb c ch then EmptyString else String c EmptyString
      | r' => String c r'
      end
  end.

(** [s.split(ch)[0]]: the text before the first [ch]. *)
Fixpoint split_head (ch : ascii) (s : string) : string :=
  match s with
  | EmptyString => EmptyString
  | String c r => if Ascii.eqb c ch then EmptyString else String c (split_head ch r)
  end.

(** Python's whitespace among the first 128 code points. *)
Definition is_space (c : ascii) : bool :=
  let n := nat_of_ascii c in
  ((9 <=? n)%nat && (n <=? 13)%nat) || ((28 <=? n)%nat && (n <=? 32)%nat).

(** [s.split()]: the maximal runs of non-blank characters. *)
Fixpoint split_ws (s : string) : list string :=
  match s with
  | EmptyString => []
  | String c r =>
      if is_space c then split_ws r
      else match r with
           | EmptyString => [String c EmptyString]
           | String c' _ =>
               if is_space c' then String c EmptyString :: split_ws r
               else match split_ws r with
                    | w :: ws => String c w :: ws
                    | [] => [String c EmptyString]
                    end
           end
  end.

Fixpoint lstrip_ws (s : string) : string :=
  match s with
  | EmptyString => EmptyString
  | String c r => if is_space c then lstrip_ws r else s
  end.

Fixpoint rstrip_ws (s : string) : string :=
  match s with
  | EmptyString => EmptyString
  | String c r =>
      match rstrip_ws r with
      | EmptyString => if is_space c then EmptyString else String c EmptyString
      | r' => String c r'
      end
  end.

(** [s.strip()] *)
Definition strip (s : string) : string := rstrip_ws (lstrip_ws s).

(** [sep.join(parts)] *)
Definition join (sep : string) (parts : list string) : string :=
  String.concat sep parts.

(** [s] occurs in [t]: the meaning of [str_in]. *)
Definition occurs_in (s t : string) : Prop :=
  exists a b : string, t = a +:+ s +:+ b.

Fixpoint last_char (s : string) : option ascii :=
  match s with
  | EmptyString => None
  | String c r => match last_char r with
                  | Some c' => Some c'
                  | None => Some c
                  end
  end.

(** [s.endswith(ch)] *)
Definition ends_with (ch : ascii) (s : string) : bool :=
  match last_char s with
  | Some c => Ascii.eqb c ch
  | None => false
  end.

Definition starts_nonblank (s : string) : bool :=
  match s with
  | EmptyString => false
  | String c _ => negb (is_space c)
  end.

Fixpoint repeat_char (ch : ascii) (n : nat) : string :=
  match n with
  | O => EmptyString
  | S k => String ch (repeat_char ch k)
  end.

Fixpoint of_codes (l : list nat) : string :=
  match l with
  | [] => EmptyString
  | n :: r => String (ascii_of_nat n) (of_codes r)
  end.

End PyStr.

(* ================================================================= *)
(** ** Documents *)

(** The value a dictionary holds under a text key: the key may be absent,
    it may hold [None] (a NULL column, or the [.string] of an empty
    [<title>]), or it holds a string. *)
Inductive field : Type :=
| Missing
| Null
| Str (s : string).

Record Item := {
  item_title : string;
  item_detail : option string;
  item_url : option string
}.

(** The dictionary built by [extract_content] and read back by [search].
    [doc_relevance] is the key ['relevance'] that the chatbot adds; it is
    a number of tenths.  [doc_links] is a list, as the scraper and the
    indexer always write it; a NULL [links] column is not represented. *)
Record Doc := {
  doc_url : string;
  doc_title : field;
  doc_text_content : field;
  doc_meta_description : field;
  doc_tables : list (list (list string));
  doc_links : list string;
  doc_aria_labels : list (string * string);
  doc_announcements : list Item;
  doc_services : list Item;
  doc_satellite_data : list Item;
  doc_crawl_timestamp : string;
  doc_category : field;
  doc_relevance : option Z
}.

Inductive exn : Type :=
| AttributeError
| TypeError
| ValueError
| DatabaseError (msg : string).

Inductive result (A : Type) : Type :=
| Ok (a : A)
| Raise (e : exn).
Arguments Ok {A} a.
Arguments Raise {A} e.

Definition bind {A B : Type} (r : result A) (k : A -> result B) : result B :=
  match r with
  | Ok a => k a
  | Raise e => Raise e
  end.

Notation "'let!' x ':=' r 'in' k" := (bind r (fun x => k))
  (at level 10, x name, r at level 100, k at level 200).

(* ================================================================= *)
(** ** scraper.py: category of a URL *)

Module Category.

(** [MOSDACScraper.determine_category] *)
Definition determine_category (url : string) : string :=
  let url_lower := PyStr.lower url in
  if PyStr.str_in "/missions/" url_lower then "missions"
  else if PyStr.str_in "/catalog/" url_lower then "catalog"
  else if PyStr.str_in "/galleries/" url_lower then "galleries"
  else if PyStr.str_in "/data-access/" url_lower then "data_access"
  else if PyStr.str_in "/reports/" url_lower then "reports"
  else if PyStr.str_in "/services/" url_lower then "services"
  else "other".

(** The classification as the design document words it: the path
    markers in their fixed order, the first one found decides. *)
Definition path_markers : list (string * string) :=
  [ ("/missions/", "missions"); ("/catalog/", "catalog");
    ("/galleries/", "galleries"); ("/data-access/", "data_access");
    ("/reports/", "reports"); ("/services/", "services") ].

Definition first_marker_category (url : string) : string :=
  match List.find (fun m => PyStr.str_in (fst m) (PyStr.lower url)) path_markers with
  | Some m => snd m
  | None => "other"
  end.

Definition category_names : list string :=
  [ "missions"; "catalog"; "galleries"; "data_access"; "reports";
    "services"; "other" ].

End Category.

(* ================================================================= *)
(** ** indexer.py: text and URL cleaning *)

Module Clean.

Definition slash : ascii := "/"%char.
Definition qmark : ascii := "?"%char.

Definition essential_params : list string := [ "id="; "page="; "view=" ].

(** [MOSDACIndexer.clean_url] *)
Definition clean_url (url : string) : string :=
  let url := PyStr.rstrip slash url in
  if PyStr.str_in "?" url
     && negb (existsb (fun param => PyStr.str_in param url) essential_params)
  then PyStr.split_head qmark url
  else url.

(** The cleaning worded on the URL that was passed in: whether the query
    goes is decided by the question mark and the three parameter names
    anywhere in that URL. *)
Definition drops_query (url : string) : bool :=
  PyStr.str_in "?" url
  && negb (PyStr.str_in "id=" url)
  && negb (PyStr.str_in "page=" url)
  && negb (PyStr.str_in "view=" url).

Definition clean_url_spec (url : string) : string :=
  if drops_query url
  then PyStr.split_head qmark (PyStr.rstrip slash url)
  else PyStr.rstrip slash url.

(** Canonical form of the design document: no trailing slash, and a
    query string only when it carries an essential parameter. *)
Definition canonical (url : string) : bool :=
  negb (PyStr.ends_with slash url) && negb (drops_query url).

Definition is_word_char (c : ascii) : bool :=
  let n := nat_of_ascii c in
  PyStr.is_upper c || PyStr.is_lower c
  || ((48 <=? n)%nat && (n <=? 57)%nat) || (n =? 95)%nat || (128 <=? n)%nat.

Definition is_kept_punct (c : ascii) : bool :=
  existsb (Ascii.eqb c) [ "."%char; ","%char; "!"%char; "?"%char; "-"%char ].

(** [re.sub(r'\s+', ' ', text)] *)
Fixpoint collapse_ws (s : string) : string :=
  match s with
  | EmptyString => EmptyString
  | String c r =>
      if PyStr.is_space c then
        match r with
        | String c' _ => if PyStr.is_space c' then collapse_ws r
                         else String " "%char (collapse_ws r)
        | EmptyString => String " "%char EmptyString
        end
      else String c (collapse_ws r)
  end.

(** [re.sub(r'[^\w\s.,!?-]', '', text)]; a byte above 127 is part of a
    letter of another script and is kept. *)
Fixpoint drop_special (s : string) : string :=
  match s with
  | EmptyString => EmptyString
  | String c r =>
      if is_word_char c || PyStr.is_space c || is_kept_punct c
      then String c (drop_special r)
      else drop_special r
  end.

(** [MOSDACIndexer.clean_text].  Exact on ASCII text; outside ASCII
    Python's [\s] and [\w] follow the Unicode tables, which a byte does
    not show. *)
Definition clean_text (text : string) : string :=
  PyStr.strip (drop_special (collapse_ws text)).

End Clean.

(* ================================================================= *)
(** ** scraper.py: extraction and traversal *)

Module Scraper.

(** What the queries of [extract_announcements], [extract_services] and
    [extract_satellite_data] find in one item of a section: the text of
    the heading, the text of the date or paragraph, and the link or
    image element with its [href]/[src] attribute. *)
Record RawItem := {
  raw_heading : option string;
  raw_detail : option string;
  raw_link : option (option string)
}.

(** What the BeautifulSoup queries of [extract_content] return on a
    rendered page. *)
Record Soup := {
  soup_title : option (option string);
  soup_meta : option (option string);
  soup_main_text : option string;
  soup_tables : list (list (list string));
  soup_hrefs : list string;
  soup_aria : list (string * string);
  soup_announcements : option (list RawItem);
  soup_services : option (list RawItem);
  soup_satellite_data : option (list RawItem)
}.

(** The collaborators of the scraper.  [driver_get url] is the page
    Selenium renders, or [None] when something raises inside the [try]
    of [crawl_page] before the document is appended (rendering, parsing,
    or [urljoin] on a malformed [href]); [save_ok docs]
    tells whether writing [docs] to [scraped_data.json] succeeds;
    [now_isoformat url] is the clock reading when [url] is extracted. *)
Class Browser := {
  urljoin : string -> string -> string;
  netloc : string -> string;
  driver_get : string -> option Soup;
  save_ok : list Doc -> bool;
  now_isoformat : string -> string
}.

(** The attributes of a [MOSDACScraper] that the traversal uses. *)
Record State := {
  base_url : string;
  visited_urls : gset string;
  content_data : list Doc
}.

(** [MOSDACScraper.__init__] *)
Definition init (base : string) : State :=
  {| base_url := base; visited_urls := ∅; content_data := [] |}.

Definition default_base_url : string := "https://mosdac.gov.in".

Section WithBrowser.
Context `{Browser}.

(** [is_valid_url] *)
Definition is_valid_url (base url : string) : bool :=
  String.eqb (netloc url) (netloc base).

Definition truthy (s : string) : bool := negb (String.eqb s "").

(** The attribute of [raw_link] joined to the base URL, when the
    element exists and the attribute is a non-empty string. *)
Definition joined_link (base : string) (l : option (option string)) : option string :=
  match l with
  | Some (Some h) => if truthy h then Some (urljoin base h) else None
  | _ => None
  end.

Definition extract_item (base : string) (r : RawItem) (heading : string) : Item :=
  {| item_title := PyStr.strip heading;
     item_detail := option_map PyStr.strip (raw_detail r);
     item_url := joined_link base (raw_link r) |}.

(** [extract_announcements]: an item needs a heading and a link. *)
Definition extract_announcements (base : string) (section : option (list RawItem)) : list Item :=
  match section with
  | None => []
  | Some items =>
      flat_map (fun r =>
        match raw_heading r, raw_link r with
        | Some h, Some _ => [extract_item base r h]
        | _, _ => []
        end) items
  end.

(** [extract_services] and [extract_satellite_data]: an item needs a
    heading. *)
Definition extract_headed (base : string) (section : option (list RawItem)) : list Item :=
  match section with
  | None => []
  | Some items =>
      flat_map (fun r =>
        match raw_heading r with
        | Some h => [extract_item base r h]
        | None => []
        end) items
  end.

Definition nonempty {A : Type} (l : list A) : bool :=
  match l with [] => false | _ => true end.

(** [extract_content] *)
Definition extract_content (base : string) (soup : Soup) (url : string) : Doc :=
  {| doc_url := url;
     doc_title := match soup_title soup with
                  | None => Str ""
                  | Some None => Null
                  | Some (Some s) => Str s
                  end;
     doc_text_content := match soup_main_text soup with
                         | None => Str ""
                         | Some t => Str t
                         end;
     doc_meta_description := match soup_meta soup with
                             | None => Str ""
                             | Some None => Str ""
                             | Some (Some c) => Str c
                             end;
     doc_tables := List.filter nonempty
                     (map (List.filter nonempty) (soup_tables soup));
     doc_links := List.filter (is_valid_url base)
                    (map (urljoin url) (List.filter truthy (soup_hrefs soup)));
     doc_aria_labels := soup_aria soup;
     doc_announcements := if String.eqb url base
                          then extract_announcements base (soup_announcements soup)
                          else [];
     doc_services := extract_headed base (soup_services soup);
     doc_satellite_data := extract_headed base (soup_satellite_data soup);
     doc_crawl_timestamp := now_isoformat url;
     doc_category := Str (Category.determine_category url);
     doc_relevance := None |}.

Definition mark_visited (url : string) (st : State) : State :=
  {| base_url := base_url st;
     visited_urls := {[ url ]} ∪ visited_urls st;
     content_data := content_data st |}.

Definition append_content (d : Doc) (st : State) : State :=
  {| base_url := base_url st;
     visited_urls := visited_urls st;
     content_data := content_data st ++ [d] |}.

(** [crawl_page].  The recursion of the Python method is not
    structural, so the function takes a number of nested calls it may
    still make, [gas], and answers [None] when that number is used up;
    [enough_gas] calls are always enough.  An exception raised inside the [try] block is
    caught by the [except] clause of the same call, so a nested call
    never raises into the loop over the links. *)
Fixpoint crawl_page (gas : nat) (url : string) (depth max_depth : Z)
    (st : State) {struct gas} : option State :=
  match gas with
  | O => None
  | S gas' =>
      if bool_decide (url ∈ visited_urls st) || (depth >? max_depth)
      then Some st
      else
        let st := mark_visited url st in
        match driver_get url with
        | None => Some st
        | Some soup =>
            let content := extract_content (base_url st) soup url in
            let st := append_content content st in
            if save_ok (content_data st) then
              (fix crawl_links (links : list string) (st : State) : option State :=
                 match links with
                 | [] => Some st
                 | link :: rest =>
                     if bool_decide (link ∈ visited_urls st)
                     then crawl_links rest st
                     else match crawl_page gas' link (depth + 1) max_depth st with
                          | Some st' => crawl_links rest st'
                          | None => None
                          end
                 end) (doc_links content) st
            else Some st
        end
  end.

(** The loop over the links of a page, as a function of its own. *)
Fixpoint crawl_links (gas : nat) (depth max_depth : Z)
    (links : list string) (st : State) : option State :=
  match links with
  | [] => Some st
  | link :: rest =>
      if bool_decide (link ∈ visited_urls st)
      then crawl_links gas depth max_depth rest st
      else match crawl_page gas link (depth + 1) max_depth st with
           | Some st' => crawl_links gas depth max_depth rest st'
           | None => None
           end
  end.

(** Nested calls that suffice for a call at [depth]. *)
Definition enough_gas (depth max_depth : Z) : nat :=
  S (Z.to_nat (max_depth + 1 - depth)).

Definition default_max_depth : Z := 3.

(** [start_crawling], up to the final [driver.quit()] and save. *)
Definition start_crawling (st : State) : option State :=
  crawl_page (enough_gas 0 default_max_depth) (base_url st) 0 default_max_depth st.

Definition urls_of (docs : list Doc) : list string := map doc_url docs.

(** What holds of the session between two calls of [crawl_page]. *)
Definition consistent (st : State) : Prop :=
  NoDup (urls_of (content_data st))
  /\ forall u, u ∈ urls_of (content_data st) -> u ∈ visited_urls st.

(** What one call does to the session. *)
Definition extends (st st' : State) : Prop :=
  consistent st'
  /\ visited_urls st ⊆ visited_urls st'
  /\ (exists new, content_data st' = content_data st ++ new)
  /\ base_url st' = base_url st.

End WithBrowser.

End Scraper.

(* ================================================================= *)
(** ** indexer.py: the document store *)

Module Indexer.

(** The table [mosdac_content], keyed by [url], and the state of the
    connection: [fault = Some msg] means that every [cursor.execute]
    raises an error with message [msg]. *)
Record Store := {
  rows : gmap string Doc;
  fault : option string
}.

(** PostgreSQL's answer to the SELECT of [search] on a working
    connection, given the cleaned query, the category filter and the
    limit: the ranked rows, or an error message.  [fromisoformat] is
    [datetime.fromisoformat]. *)
Class Postgres := {
  fts_select : gmap string Doc -> string -> option string -> Z -> string + list Doc;
  fromisoformat : string -> option string
}.

Section WithPostgres.
Context `{Postgres}.

Definition clean_field (f : field) : field :=
  match f with
  | Str s => if String.eqb s "" then f else Str (Clean.clean_text s)
  | _ => f
  end.

(** The in-place normalisation [index_document] applies to the
    dictionary before it builds the INSERT. *)
Definition prepare_document (document : Doc) : result Doc :=
  let! ts := match fromisoformat (doc_crawl_timestamp document) with
             | Some t => Ok t
             | None => Raise ValueError
             end in
  Ok {| doc_url := doc_url document;
        doc_title := clean_field (doc_title document);
        doc_text_content := clean_field (doc_text_content document);
        doc_meta_description := clean_field (doc_meta_description document);
        doc_tables := doc_tables document;
        doc_links := map Clean.clean_url
                       (List.filter (fun l => negb (String.eqb l "")) (doc_links document));
        doc_aria_labels := doc_aria_labels document;
        doc_announcements := doc_announcements document;
        doc_services := doc_services document;
        doc_satellite_data := doc_satellite_data document;
        doc_crawl_timestamp := ts;
        doc_category := doc_category document;
        doc_relevance := doc_relevance document |}.

(** A column the dictionary does not name keeps the stored value, or
    is NULL in a fresh row. *)
Definition merge_field (new : field) (old : option field) : field :=
  match new, old with
  | Missing, Some f => f
  | Missing, None => Null
  | f, _ => f
  end.

(** [INSERT ... ON CONFLICT (url) DO UPDATE SET ...] *)
Definition upsert (d : Doc) (table : gmap string Doc) : gmap string Doc :=
  let old := table !! doc_url d in
  <[ doc_url d :=
       {| doc_url := doc_url d;
          doc_title := merge_field (doc_title d) (doc_title <$> old);
          doc_text_content := merge_field (doc_text_content d) (doc_text_content <$> old);
          doc_meta_description :=
            merge_field (doc_meta_description d) (doc_meta_description <$> old);
          doc_tables := doc_tables d;
          doc_links := doc_links d;
          doc_aria_labels := doc_aria_labels d;
          doc_announcements := doc_announcements d;
          doc_services := doc_services d;
          doc_satellite_data := doc_satellite_data d;
          doc_crawl_timestamp := doc_crawl_timestamp d;
          doc_category := merge_field (doc_category d) (doc_category <$> old);
          doc_relevance := None |} ]> table.

(** [cursor.execute] of the INSERT.  The column list is the key list of
    the dictionary, and the table has no column [relevance]. *)
Definition cursor_upsert (st : Store) (d : Doc) : result Store :=
  match fault st with
  | Some msg => Raise (DatabaseError msg)
  | None =>
      match doc_relevance d with
      | Some _ => Raise (DatabaseError "column relevance does not exist")
      | None => Ok {| rows := upsert d (rows st); fault := None |}
      end
  end.

(** [index_document]: the store afterwards, and the outcome; an error
    is logged and raised again.  [document] is a dictionary as
    [json.load] or [extract_content] builds it; what the method writes
    back into that dictionary (the parsed time stamp, the wrapped JSON
    fields) is not returned, so a second call is a call on another
    dictionary with the same contents. *)
Definition index_document (st : Store) (document : Doc) : Store * result unit :=
  match (let! d := prepare_document document in cursor_upsert st d) with
  | Ok st' => (st', Ok tt)
  | Raise e => (st, Raise e)
  end.

(** [bulk_index] *)
Fixpoint bulk_index (st : Store) (documents : list Doc) : Store * result unit :=
  match documents with
  | [] => (st, Ok tt)
  | doc :: rest =>
      match index_document st doc with
      | (st', Ok _) => bulk_index st' rest
      | (st', Raise e) => (st', Raise e)
      end
  end.

Definition cursor_select (st : Store) (query : string)
    (category : option string) (size : Z) : result (list Doc) :=
  match fault st with
  | Some msg => Raise (DatabaseError msg)
  | None =>
      match fts_select (rows st) query category size with
      | inl msg => Raise (DatabaseError msg)
      | inr found => Ok found
      end
  end.

Definition exn_message (e : exn) : string :=
  match e with
  | AttributeError => "AttributeError"
  | TypeError => "TypeError"
  | ValueError => "ValueError"
  | DatabaseError msg => msg
  end.

(** [if category:] *)
Definition category_filter (category : option string) : option string :=
  match category with
  | Some c => if String.eqb c "" then None else Some c
  | None => None
  end.

(** [search]: the lines written to the log, and the outcome.  The
    [except] clause logs the error and returns the empty list. *)
Definition search (st : Store) (query : string) (category : option string)
    (size : Z) : list string * result (list Doc) :=
  let query := Clean.clean_text query in
  match cursor_select st query (category_filter category) size with
  | Ok found => ([], Ok found)
  | Raise e => (["Error searching: " +:+ exn_message e], Ok [])
  end.

Definition default_size : Z := 10.

End WithPostgres.

End Indexer.

(* ================================================================= *)
(** ** chatbot.py: scoring, summarising, conversation *)

Module Chatbot.

(** NLTK's tokenizers, stop-word list and lemmatizer, and
    [textwrap.fill(_, width=80)]. *)
Class Nltk := {
  word_tokenize : string -> list string;
  sent_tokenize : string -> list string;
  is_stop_word : string -> bool;
  lemmatize : string -> string;
  textwrap_fill : string -> string
}.

Definition is_alnum_char (c : ascii) : bool :=
  let n := nat_of_ascii c in
  PyStr.is_upper c || PyStr.is_lower c
  || ((48 <=? n)%nat && (n <=? 57)%nat) || (128 <=? n)%nat.

Fixpoint all_chars (p : ascii -> bool) (s : string) : bool :=
  match s with
  | EmptyString => true
  | String c r => p c && all_chars p r
  end.

(** [s.isalnum()] on ASCII text; a byte above 127 is taken as part of a
    letter, although it may belong to a symbol. *)
Definition isalnum (s : string) : bool :=
  negb (String.eqb s "") && all_chars is_alnum_char s.

(** [relevance += f(x)] for each [x] of [l]. *)
Definition accumulate {A : Type} (f : A -> Z) (l : list A) (relevance : Z) : Z :=
  fold_left (fun r x => r + f x) l relevance.

(** [doc.get(key, '').lower()] *)
Definition get_lower (f : field) : result string :=
  match f with
  | Missing => Ok ""
  | Null => Raise AttributeError
  | Str s => Ok (PyStr.lower s)
  end.

(** [doc.get(key, default)] inside an f-string or a truth test. *)
Definition get_or (default : string) (f : field) : option string :=
  match f with
  | Missing => Some default
  | Null => None
  | Str s => Some s
  end.

Definition max_context_length : nat := 5.
Definition min_relevance : Z := 5.

Definition no_results_message (query : string) : string :=
  "I couldn't find any information about '" +:+ query +:+ "' in the MOSDAC database.".

Definition low_relevance_message (query : string) : string :=
  "I found some results, but none were relevant enough to your query about '"
  +:+ query +:+ "'.".

(** The two glyphs of the source file, byte for byte. *)
Definition pin_glyph : string :=
  PyStr.of_codes [195; 176; 197; 184; 226; 128; 156; 197; 146]%nat.
Definition bullet_glyph : string :=
  PyStr.of_codes [195; 162; 226; 130; 172; 194; 162]%nat.
Definition newline : string := String (ascii_of_nat 10) EmptyString.

(** [x.get('relevance', 0)] *)
Definition relevance_or_0 (d : Doc) : Z := default 0 (doc_relevance d).

(** [doc['relevance'] = r] *)
Definition set_relevance (d : Doc) (r : Z) : Doc :=
  {| doc_url := doc_url d; doc_title := doc_title d;
     doc_text_content := doc_text_content d;
     doc_meta_description := doc_meta_description d;
     doc_tables := doc_tables d; doc_links := doc_links d;
     doc_aria_labels := doc_aria_labels d;
     doc_announcements := doc_announcements d;
     doc_services := doc_services d;
     doc_satellite_data := doc_satellite_data d;
     doc_crawl_timestamp := doc_crawl_timestamp d;
     doc_category := doc_category d;
     doc_relevance := Some r |}.




(** The document read by the chatbot holds no [None] under the four
    text keys. *)
Definition is_text (f : field) : bool :=
  match f with
  | Null => false
  | _ => true
  end.

Definition text_fields_ok (d : Doc) : bool :=
  is_text (doc_title d) && is_text (doc_meta_description d)
  && is_text (doc_text_content d) && is_text (doc_category d).

(** Groups whose key is a string and whose documents hold no [None]
    under the text keys. *)
Definition groups_ok (groups : list (option string * list Doc)) : Prop :=
  Forall (fun g => fst g <> None /\ Forall (fun d => text_fields_ok d = true) (snd g))
    groups.

(** [d'] is [d] up to the key ['relevance']. *)
Definition rescored (d d' : Doc) : Prop :=
  d' = d \/ exists r, d' = set_relevance d r.

(** [results.sort(key=..., reverse=True)]: stable, largest key first. *)
Fixpoint insert_desc {A : Type} (ge : A -> A -> bool) (x : A) (l : list A) : list A :=
  match l with
  | [] => [x]
  | y :: r => if ge x y then x :: y :: r else y :: insert_desc ge x r
  end.

Definition sort_desc {A : Type} (ge : A -> A -> bool) (l : list A) : list A :=
  fold_right (insert_desc ge) [] l.

(** [categorized_results]: a dictionary in insertion order.  A key is
    a string, or [None] when the document holds [None] as category. *)
Fixpoint group_add (k : option string) (d : Doc)
    (groups : list (option string * list Doc)) : list (option string * list Doc) :=
  match groups with
  | [] => [(k, [d])]
  | (k', ds) :: g =>
      if bool_decide (k = k') then (k', ds ++ [d]) :: g
      else (k', ds) :: group_add k d g
  end.

Section WithNltk.
Context `{Nltk}.

(** [preprocess_query] *)
Definition preprocess_query (query : string) : list string :=
  let query := PyStr.lower query in
  let tokens := word_tokenize query in
  map lemmatize
    (List.filter (fun token => isalnum token && negb (is_stop_word token)) tokens).

(** The words of a sentence that count in [extract_key_sentences]. *)
Definition content_words (sentence : string) : list string :=
  List.filter (fun w => isalnum w && negb (is_stop_word w))
    (word_tokenize (PyStr.lower sentence)).

Definition count_word (w : string) (ws : list string) : Z :=
  Z.of_nat (length (List.filter (String.eqb w) ws)).

(** The score of a sentence is the quotient [fst / snd]; [snd] is
    positive. *)
Definition sentence_score (all_words : list string) (sentence : string) : Z * Z :=
  let words := content_words sentence in
  let score := accumulate (fun w => count_word w all_words) words 0 in
  if (0 <? Z.of_nat (length words)) then (score, Z.of_nat (length words))
  else (score, 1).

(** Order of the pairs [(score, sentence)]. *)
Definition scored_ge (a b : (Z * Z) * string) : bool :=
  let '((n1, d1), s1) := a in
  let '((n2, d2), s2) := b in
  if n1 * d2 =? n2 * d1 then String.leb s2 s1 else n2 * d1 <? n1 * d2.

(** [extract_key_sentences] *)
Definition extract_key_sentences (text : string) (num_sentences : nat) : list string :=
  let sentences := sent_tokenize text in
  let word_frequencies := flat_map content_words sentences in
  let sentence_scores :=
    map (fun s => (sentence_score word_frequencies s, s)) sentences in
  map snd (take num_sentences (sort_desc scored_ge sentence_scores)).

Definition title_points (title : string) (keyword : string) : Z :=
  if PyStr.str_in keyword title then 30
  else if existsb (fun word => PyStr.str_in keyword word) (PyStr.split_ws title) then 20
  else 0.

Definition description_points (desc : string) (keyword : string) : Z :=
  if PyStr.str_in keyword desc then 15
  else if existsb (fun word => PyStr.str_in keyword word) (PyStr.split_ws desc) then 10
  else 0.

(** The inner loop over [other_keyword]. *)
Definition proximity_points (content keyword other_keyword : string) : Z :=
  if negb (String.eqb other_keyword keyword) then
    if Z.abs (PyStr.find content keyword - PyStr.find content other_keyword) <? 50
    then 3 else 0
  else 0.

Definition content_points (content : string) (keywords : list string)
    (keyword : string) : Z :=
  if PyStr.str_in keyword content
  then accumulate (proximity_points content keyword) keywords 5
  else 0.

Definition category_points (category : string) (keyword : string) : Z :=
  if PyStr.str_in keyword category then 20 else 0.

Definition context_points (content : string) (context : string) : Z :=
  accumulate (fun keyword => if PyStr.str_in keyword content then 2 else 0)
    (preprocess_query context) 0.

(** [calculate_relevance], in tenths.  Two scores that differ here
    differ by 0.1 or more and compare the same way as the floats of the
    code; two scores that are equal here can be floats one rounding
    apart. *)
Definition calculate_relevance (context_history : list string) (doc : Doc)
    (keywords : list string) : result Z :=
  let relevance := 0 in
  let! title := get_lower (doc_title doc) in
  let relevance := accumulate (title_points title) keywords relevance in
  let! desc := get_lower (doc_meta_description doc) in
  let relevance := accumulate (description_points desc) keywords relevance in
  let! content := get_lower (doc_text_content doc) in
  let relevance := accumulate (content_points content keywords) keywords relevance in
  let! category := get_lower (doc_category doc) in
  let relevance := accumulate (category_points category) keywords relevance in
  let relevance := accumulate (context_points content) context_history relevance in
  Ok relevance.

(** The loop [for doc in results: doc['relevance'] = ...]: the list
    with the documents scored so far, and whether scoring raised. *)
Fixpoint score_all (context_history : list string) (keywords : list string)
    (results : list Doc) : list Doc * result unit :=
  match results with
  | [] => ([], Ok tt)
  | doc :: rest =>
      match calculate_relevance context_history doc keywords with
      | Raise e => (doc :: rest, Raise e)
      | Ok r =>
          let '(rest', outcome) := score_all context_history keywords rest in
          (set_relevance doc r :: rest', outcome)
      end
  end.

Definition by_relevance (a b : Doc) : bool := relevance_or_0 b <=? relevance_or_0 a.

Definition categorize (results : list Doc) : list (option string * list Doc) :=
  fold_left (fun groups doc => group_add (get_or "General" (doc_category doc)) doc groups)
    results [].

(** The lines appended to [summary] for one document. *)
Definition render_doc (keywords : list string) (doc : Doc) : result (list string) :=
  let title := default "None" (get_or "No title" (doc_title doc)) in
  let desc := get_or "No description available" (doc_meta_description doc) in
  let! content := match get_or "" (doc_text_content doc) with
                  | Some c => Ok c
                  | None => Raise TypeError
                  end in
  let key_sentences := extract_key_sentences content 3 in
  let relevant_links :=
    List.filter (fun link =>
                   existsb (fun keyword =>
                              PyStr.str_in (PyStr.lower keyword) (PyStr.lower link))
                     keywords)
      (doc_links doc) in
  Ok ([newline +:+ bullet_glyph +:+ " " +:+ title]
      ++ match desc with
         | Some d => if String.eqb d "" then [] else ["  " +:+ textwrap_fill d]
         | None => []
         end
      ++ (if Scraper.nonempty key_sentences
          then "  Key points:" :: map (fun s => "  - " +:+ textwrap_fill s) key_sentences
          else [])
      ++ (if Scraper.nonempty relevant_links
          then "  Relevant links:" :: map (fun l => "  - " +:+ l) (take 3 relevant_links)
          else [])
      ++ match doc_relevance doc with
         | Some r =>
             let confidence := Z.min 100 (r * 2) in
             if 50 <=? confidence
             then ["  Confidence: " +:+ pretty confidence +:+ "%"]
             else []
         | None => []
         end).

Fixpoint render_docs (keywords : list string) (docs : list Doc) : result (list string) :=
  match docs with
  | [] => Ok []
  | doc :: rest =>
      let! lines := render_doc keywords doc in
      let! more := render_docs keywords rest in
      Ok (lines ++ more)
  end.

(** The loop over [categorized_results.items()]; [category.upper()]
    raises when the key is [None]. *)
Fixpoint render_groups (keywords : list string)
    (groups : list (option string * list Doc)) : result (list string) :=
  match groups with
  | [] => Ok []
  | (key, docs) :: rest =>
      let! category := match key with
                       | Some c => Ok c
                       | None => Raise AttributeError
                       end in
      let! lines := render_docs keywords docs in
      let! more := render_groups keywords rest in
      Ok ((newline +:+ pin_glyph +:+ " " +:+ PyStr.upper category +:+ ":") :: lines ++ more)
  end.

(** [summarize_results].  The first component is the caller's list
    object after the call: its documents carry the key ['relevance']
    and it has been sorted in place; the list comprehension that
    filters rebinds the local name only. *)
Definition summarize_results (context_history : list string)
    (results : list Doc) (query : string) : list Doc * result string :=
  if negb (Scraper.nonempty results) then (results, Ok (no_results_message query))
  else
    let keywords := preprocess_query query in
    match score_all context_history keywords results with
    | (scored, Raise e) => (scored, Raise e)
    | (scored, Ok _) =>
        let sorted := sort_desc by_relevance scored in
        let results := List.filter (fun doc => min_relevance <=? relevance_or_0 doc) sorted in
        if negb (Scraper.nonempty results)
        then (sorted, Ok (low_relevance_message query))
        else
          (sorted,
           let! body := render_groups keywords (categorize results) in
           let summary :=
             ("I found " +:+ pretty (length results)
              +:+ " relevant results about your query:" +:+ newline) :: body in
           Ok (PyStr.join newline summary))
    end.

End WithNltk.

(** The attributes of a [MOSDACChatbot] that [chat] uses. *)
Record Session := {
  context_history : list string;
  store : Indexer.Store
}.

Section WithBackends.
Context `{Nltk} `{Indexer.Postgres}.

(** [chat]: the session afterwards, the lines logged by the indexer,
    and the response. *)
Definition chat (s : Session) (query : string) : Session * list string * result string :=
  let history := context_history s ++ [query] in
  let history :=
    if (max_context_length <? length history)%nat then drop 1 history else history in
  let s' := {| context_history := history; store := store s |} in
  let '(log1, found) := Indexer.search (store s) query None Indexer.default_size in
  match found with
  | Raise e => (s', log1, Raise e)
  | Ok results =>
      let '(log2, found2) :=
        if negb (Scraper.nonempty results) then
          let keywords := preprocess_query query in
          if Scraper.nonempty keywords
          then Indexer.search (store s) (PyStr.join " " keywords) None Indexer.default_size
          else ([], Ok results)
        else ([], Ok results) in
      match found2 with
      | Raise e => (s', log1 ++ log2, Raise e)
      | Ok results => (s', log1 ++ log2, snd (summarize_results history results query))
      end
  end.

End WithBackends.

End Chatbot.

(* ================================================================= *)
(** ** indexer.py: loading a snapshot *)

Module Loader.

Section WithPostgres.
Context `{Indexer.Postgres}.

(** [create_index]: three [CREATE ... IF NOT EXISTS] statements; they
    leave the rows alone and raise when the connection is down. *)
Definition create_index (st : Indexer.Store) : result unit :=
  match Indexer.fault st with
  | Some msg => Raise (DatabaseError msg)
  | None => Ok tt
  end.

(** [index_from_file].  [file] is what [open] and [json.load] give for
    the path: the documents, or the exception they raise. *)
Definition index_from_file (st : Indexer.Store) (file : result (list Doc))
    : Indexer.Store * result unit :=
  match file with
  | Raise e => (st, Raise e)
  | Ok documents =>
      match create_index st with
      | Raise e => (st, Raise e)
      | Ok _ => Indexer.bulk_index st documents
      end
  end.

End WithPostgres.

End Loader.

(* ================================================================= *)
(** ** api.py: the handlers *)

Module Api.

(** What a handler gives back: the body of a 200 answer, or the detail
    of the [HTTPException] with status 500 that it raises.  The
    conversion of a body to the response model is the framework's. *)
Inductive response (A : Type) : Type :=
| Http200 (body : A)
| Http500 (detail : string).
Arguments Http200 {A} body.
Arguments Http500 {A} detail.

(** The list of [get_categories]. *)
Definition categories : list string :=
  [ "missions"; "catalog"; "galleries"; "data_access"; "reports";
    "services"; "other" ].

(** [results[0].get(key)] when [results] is not empty and the value is
    not empty, the empty list otherwise. *)
Definition first_section (section : Doc -> list Item) (results : list Doc) : list Item :=
  match results with
  | doc :: _ => section doc
  | [] => []
  end.

Section WithPostgres.
Context `{Indexer.Postgres}.

(** The body of the [try] of a handler, around one call of
    [indexer.search]. *)
Definition guarded {A : Type} (st : Indexer.Store) (query : string)
    (category : option string) (size : Z) (k : list Doc -> A) : response A :=
  match snd (Indexer.search st query category size) with
  | Ok results => Http200 (k results)
  | Raise e => Http500 (Indexer.exn_message e)
  end.

(** [search] *)
Definition search (st : Indexer.Store) (query : string) (category : option string)
    (size : Z) : response (list Doc) :=
  guarded st query category size (fun results => results).

(** [get_announcements] *)
Definition get_announcements (st : Indexer.Store) : response (list Item) :=
  guarded st "" None 1 (first_section doc_announcements).

(** [get_services] *)
Definition get_services (st : Indexer.Store) : response (list Item) :=
  guarded st "" (Some "services") 1 (first_section doc_services).

(** [get_satellite_data] *)
Definition get_satellite_data (st : Indexer.Store) : response (list Item) :=
  guarded st "" (Some "data_access") 1 (first_section doc_satellite_data).

End WithPostgres.

End Api.

(* ================================================================= *)
(** ** Vocabulary for the properties of the traversal and the summary *)

Module Vocabulary.

(** [d] is the extraction of the page that the browser renders for its
    own URL. *)
Definition rendered `{Scraper.Browser} (base : string) (d : Doc) : Prop :=
  exists soup, Scraper.driver_get (doc_url d) = Some soup
               /\ d = Scraper.extract_content base soup (doc_url d).

(** The URL of [d] is [url], or a URL of the host of [base]. *)
Definition within `{Scraper.Browser} (base url : string) (d : Doc) : Prop :=
  doc_url d = url \/ Scraper.is_valid_url base (doc_url d) = true.

(** What a call of [crawl_page] for [url] adds to the document list. *)
Definition adds `{Scraper.Browser} (url : string) (st st' : Scraper.State) : Prop :=
  Scraper.base_url st' = Scraper.base_url st
  /\ exists new, Scraper.content_data st' = Scraper.content_data st ++ new
                 /\ Forall (fun d => rendered (Scraper.base_url st) d
                                     /\ within (Scraper.base_url st) url d) new.

(** The key under which [categorize] files a document. *)
Definition category_key (d : Doc) : option string :=
  Chatbot.get_or "General" (doc_category d).

(** The groups after the documents [pre] have been filed, in the order
    the loop files them. *)
Definition filed (pre : list Doc) (g : list (option string * list Doc)) : Prop :=
  NoDup (map fst g)
  /\ Forall (fun p => snd p = List.filter (fun d => bool_decide (category_key d = fst p)) pre
                       /\ snd p <> []) g
  /\ forall d, d ∈ pre -> category_key d ∈ map fst g.

(** The history [chat] keeps for the next turn. *)
Definition next_history (history : list string) (query : string) : list string :=
  if (Chatbot.max_context_length <? length (history ++ [query]))%nat
  then drop 1 (history ++ [query])
  else history ++ [query].

(** Larger or equal relevance. *)
Definition relevance_ge (a b : Doc) : Prop :=
  Chatbot.relevance_or_0 b <= Chatbot.relevance_or_0 a.

(** A character that is not white space, or the space itself. *)
Definition blank_or_ink (c : ascii) : bool :=
  negb (PyStr.is_space c) || Ascii.eqb c " "%char.

(** A character of the first 128 code points, and a text made of such
    characters.  On such text [PyStr.lower], [PyStr.find], [PyStr.is_space]
    and [Clean.is_word_char] are exactly Python's [str.lower], [str.find],
    [\s] and [\w]. *)
Definition is_ascii_char (c : ascii) : bool := (nat_of_ascii c <? 128)%nat.

Definition ascii_text (s : string) : bool := Chatbot.all_chars is_ascii_char s.

(** The ASCII characters [clean_text] lets through: letters, digits, the
    underscore, the space and the five punctuation marks. *)
Definition plain_char (c : ascii) : bool :=
  (PyStr.is_upper c || PyStr.is_lower c
   || ((48 <=? nat_of_ascii c)%nat && (nat_of_ascii c <=? 57)%nat)
   || (nat_of_ascii c =? 95)%nat)
  || Ascii.eqb c " "%char || Clean.is_kept_punct c.



(** The characters [clean_text] lets through. *)
Definition clean_char (c : ascii) : bool :=
  Clean.is_word_char c || Ascii.eqb c " "%char || Clean.is_kept_punct c.

End Vocabulary.

(* ================================================================= *)
(** ** Small sites, stores and tokenizers for the examples *)

Module Fixtures.

Definition seed : string := Scraper.default_base_url.
Definition missions_page : string := "https://mosdac.gov.in/missions/".
Definition broken_page : string := "https://mosdac.gov.in/broken".
Definition foreign_page : string := "https://example.org/x".

(** A page with an empty [<title>] and the given links. *)
Definition page (hrefs : list string) : Scraper.Soup :=
  {| Scraper.soup_title := Some None;
     Scraper.soup_meta := None;
     Scraper.soup_main_text := Some "rainfall data";
     Scraper.soup_tables := [];
     Scraper.soup_hrefs := hrefs;
     Scraper.soup_aria := [];
     Scraper.soup_announcements := None;
     Scraper.soup_services := None;
     Scraper.soup_satellite_data := None |}.

(** The host of an absolute [https] URL. *)
Definition host (u : string) : string :=
  if PyStr.startswith u "https://"
  then PyStr.split_head "/"%char (String.substring 8 (String.length u) u)
  else "".

(** A site whose links are absolute and form a cycle: the seed links to
    the missions page (twice), to another host and to a page that fails
    to render; the missions page links back to the seed and to itself. *)
Definition cyclic_site : Scraper.Browser :=
  {| Scraper.urljoin := fun _ href => href;
     Scraper.netloc := host;
     Scraper.driver_get := fun u =>
       if String.eqb u seed
       then Some (page [missions_page; foreign_page; broken_page; missions_page])
       else if String.eqb u missions_page
       then Some (page [seed; missions_page])
       else None;
     Scraper.save_ok := fun _ => true;
     Scraper.now_isoformat := fun _ => "2024-01-01T00:00:00" |}.

(** A database that finds nothing. *)
Definition silent_db : Indexer.Postgres :=
  {| Indexer.fts_select := fun _ _ _ _ => inr [];
     Indexer.fromisoformat := fun t => Some t |}.

Definition empty_store : Indexer.Store :=
  {| Indexer.rows := ∅; Indexer.fault := None |}.

Definition broken_store : Indexer.Store :=
  {| Indexer.rows := ∅; Indexer.fault := Some "connection refused" |}.

(** Tokens are the blank-separated words, a text is one sentence, the
    only stop word is [the], and nothing is lemmatized or wrapped. *)
Definition plain_nltk : Chatbot.Nltk :=
  {| Chatbot.word_tokenize := PyStr.split_ws;
     Chatbot.sent_tokenize := fun s => if String.eqb s "" then [] else [s];
     Chatbot.is_stop_word := fun w => String.eqb w "the";
     Chatbot.lemmatize := fun w => w;
     Chatbot.textwrap_fill := fun s => s |}.

Definition sample_doc (u : string) (title : field) (content : string) : Doc :=
  {| doc_url := u;
     doc_title := title;
     doc_text_content := Str content;
     doc_meta_description := Str "";
     doc_tables := [];
     doc_links := [];
     doc_aria_labels := [];
     doc_announcements := [];
     doc_services := [];
     doc_satellite_data := [];
     doc_crawl_timestamp := "2024-01-01T00:00:00";
     doc_category := Str "other";
     doc_relevance := None |}.

End Fixtures.

(* ================================================================= *)
(** ** More documents and backends for the examples *)

Module MoreFixtures.

(** A document whose time stamp [fromisoformat] rejects. *)
Definition undated_doc (u : string) : Doc :=
  {| doc_url := u;
     doc_title := Str "Undated";
     doc_text_content := Str "";
     doc_meta_description := Str "";
     doc_tables := [];
     doc_links := [];
     doc_aria_labels := [];
     doc_announcements := [];
     doc_services := [];
     doc_satellite_data := [];
     doc_crawl_timestamp := "";
     doc_category := Str "other";
     doc_relevance := None |}.

(** A database that finds nothing and accepts every time stamp but the
    empty one. *)
Definition strict_db : Indexer.Postgres :=
  {| Indexer.fts_select := fun _ _ _ _ => inr [];
     Indexer.fromisoformat := fun t => if String.eqb t "" then None else Some t |}.

Definition rain_doc : Doc := Fixtures.sample_doc "a" (Str "Rainfall") "rain".
Definition snow_doc : Doc := Fixtures.sample_doc "b" (Str "Snow") "snow".

(** A database whose search finds the two sample documents. *)
Definition two_docs_db : Indexer.Postgres :=
  {| Indexer.fts_select := fun _ _ _ _ => inr [snow_doc; rain_doc];
     Indexer.fromisoformat := fun t => Some t |}.

End MoreFixtures.

(* ================================================================= *)
(** * Properties *)

(** ** Facts about the string operations *)

Module PyStrFacts.
Import PyStr.

Lemma app_cons (c : ascii) (a b : string) :
  String c a +:+ b = String c (a +:+ b).
Proof. reflexivity. Qed.

Lemma app_empty_l (a : string) : EmptyString +:+ a = a.
Proof. reflexivity. Qed.

Lemma app_empty_r (a : string) : a +:+ EmptyString = a.
Proof. induction a as [|c a IH]; [reflexivity|]. rewrite app_cons, IH. reflexivity. Qed.

Lemma app_assoc (a b c : string) : (a +:+ b) +:+ c = a +:+ (b +:+ c).
Proof.
  induction a as [|x a IH]; [reflexivity|].
  rewrite !app_cons, IH. reflexivity.
Qed.

Lemma eqb_char_refl (c : ascii) : Ascii.eqb c c = true.
Proof. apply Ascii.eqb_refl. Qed.

Lemma startswith_app (p b : string) : startswith (p +:+ b) p = true.
Proof.
  induction p as [|c p IH]; [destruct b; reflexivity|].
  rewrite app_cons. simpl. rewrite eqb_char_refl, IH. reflexivity.
Qed.

Lemma startswith_inv (s p : string) :
  startswith s p = true -> exists b, s = p +:+ b.
Proof.
  revert s. induction p as [|c p IH]; intros s Hs.
  - exists s. reflexivity.
  - destruct s as [|d s]; [discriminate|]. simpl in Hs.
    apply andb_prop in Hs as [Hc Hp]. apply Ascii.eqb_eq in Hc. subst d.
    destruct (IH _ Hp) as [b ->]. exists b. reflexivity.
Qed.

Lemma startswith_empty (s : string) : startswith s EmptyString = true.
Proof. destruct s; reflexivity. Qed.

Lemma str_in_cons (p : string) (c : ascii) (s : string) :
  str_in p (String c s) = startswith (String c s) p || str_in p s.
Proof. reflexivity. Qed.

Lemma str_in_empty (p : string) :
  str_in p EmptyString = match p with EmptyString => true | _ => false end.
Proof. destruct p; reflexivity. Qed.

(** [str_in] decides occurrence. *)
Lemma str_in_occurs (p s : string) : str_in p s = true <-> occurs_in p s.
Proof.
  split.
  - induction s as [|c s IH]; intros Hs.
    + rewrite str_in_empty in Hs. destruct p; [|discriminate].
      exists EmptyString, EmptyString. reflexivity.
    + rewrite str_in_cons in Hs. apply orb_prop in Hs as [Hs|Hs].
      * apply startswith_inv in Hs as [b Hb]. exists EmptyString, b. exact Hb.
      * destruct (IH Hs) as (a & b & ->). exists (String c a), b. reflexivity.
  - intros (a & b & ->). induction a as [|c a IH].
    + rewrite app_empty_l. destruct (p +:+ b) eqn:E.
      * rewrite str_in_empty. destruct p; [reflexivity|discriminate].
      * rewrite str_in_cons, <- E, startswith_app. reflexivity.
    + rewrite app_cons, str_in_cons, IH. apply orb_true_r.
Qed.

Lemma occurs_in_trans (a b c : string) :
  occurs_in a b -> occurs_in b c -> occurs_in a c.
Proof.
  intros (x & y & ->) (u & v & ->).
  exists (u +:+ x), (y +:+ v). rewrite !app_assoc. reflexivity.
Qed.

Lemma occurs_in_refl (a : string) : occurs_in a a.
Proof. exists EmptyString, EmptyString. rewrite app_empty_r. reflexivity. Qed.



Lemma split_ws_cons (c : ascii) (r : string) :
  split_ws (String c r) =
  if is_space c then split_ws r
  else match r with
       | EmptyString => [String c EmptyString]
       | String c' _ =>
           if is_space c' then String c EmptyString :: split_ws r
           else match split_ws r with
                | w :: ws => String c w :: ws
                | [] => [String c EmptyString]
                end
       end.
Proof. reflexivity. Qed.

(** The first word of a string that does not start with a blank is a
    prefix of the string. *)
Lemma split_ws_head (s w0 : string) (ws : list string) :
  starts_nonblank s = true -> split_ws s = w0 :: ws -> startswith s w0 = true.
Proof.
  revert w0 ws. induction s as [|c r IH]; intros w0 ws Hc Hs; [discriminate|].
  rewrite split_ws_cons in Hs. simpl in Hc.
  destruct (is_space c); [discriminate|].
  assert (Hone : startswith (String c r) (String c EmptyString) = true).
  { simpl. rewrite eqb_char_refl, startswith_empty. reflexivity. }
  destruct r as [|c' r']; [injection Hs as <- _; exact Hone|].
  destruct (is_space c') eqn:Ec'; [injection Hs as <- _; exact Hone|].
  destruct (split_ws (String c' r')) as [|w ws'] eqn:E;
    [injection Hs as <- _; exact Hone|].
  injection Hs as <- _.
  assert (Hw : startswith (String c' r') w = true).
  { apply (IH w ws'); [simpl; rewrite Ec'; reflexivity|reflexivity]. }
  change (Ascii.eqb c c && startswith (String c' r') w = true).
  rewrite eqb_char_refl, Hw. reflexivity.
Qed.

(** Every word of [s.split()] occurs in [s]. *)
Lemma split_ws_occurs (s w : string) : In w (split_ws s) -> occurs_in w s.
Proof.
  revert w. induction s as [|c s IH]; intros w Hw; [destruct Hw|].
  assert (Htail : forall v, occurs_in v s -> occurs_in v (String c s)).
  { intros v (a & b & ->). exists (String c a), b. reflexivity. }
  assert (Hone : occurs_in (String c EmptyString) (String c s)).
  { exists EmptyString, s. reflexivity. }
  rewrite split_ws_cons in Hw. destruct (is_space c); [auto|].
  destruct s as [|c' s']; [destruct Hw as [<-|[]]; exact Hone|].
  destruct (is_space c') eqn:Ec'.
  - destruct Hw as [<-|Hw]; [exact Hone|auto].
  - destruct (split_ws (String c' s')) as [|w0 ws] eqn:E.
    + destruct Hw as [<-|[]]. exact Hone.
    + destruct Hw as [<-|Hw].
      * assert (Hp : startswith (String c' s') w0 = true).
        { apply (split_ws_head _ w0 ws); [simpl; rewrite Ec'; reflexivity|exact E]. }
        apply startswith_inv in Hp as [b Hb].
        exists EmptyString, b. rewrite Hb. reflexivity.
      * apply Htail, IH. right. exact Hw.
Qed.

(** The [elif] of the title and description loops never adds anything:
    a keyword found in a word of the text is found in the text. *)
Lemma word_match_is_match (keyword text : string) :
  existsb (fun word => str_in keyword word) (split_ws text) = true ->
  str_in keyword text = true.
Proof.
  intros Hex. apply existsb_exists in Hex as (w & Hw & Hk).
  apply str_in_occurs. apply str_in_occurs in Hk.
  exact (occurs_in_trans _ _ _ Hk (split_ws_occurs _ _ Hw)).
Qed.

(** *** Trailing characters *)

Lemma rstrip_cons (ch c : ascii) (r : string) :
  rstrip ch (String c r) =
  match rstrip ch r with
  | EmptyString => if Ascii.eqb c ch then EmptyString else String c EmptyString
  | String c' r' => String c (String c' r')
  end.
Proof. simpl. destruct (rstrip ch r); reflexivity. Qed.

(** [rstrip] removes a run of [ch] from the end of the string... *)
Lemma rstrip_decompose (ch : ascii) (s : string) :
  exists n, s = rstrip ch s +:+ repeat_char ch n.
Proof.
  induction s as [|c r [n IH]]; [exists O; reflexivity|].
  rewrite rstrip_cons. destruct (rstrip ch r) as [|c' r'] eqn:E.
  - destruct (Ascii.eqb c ch) eqn:Ec.
    + apply Ascii.eqb_eq in Ec. subst c. exists (S n).
      rewrite IH at 1. reflexivity.
    + exists n. rewrite IH at 1. reflexivity.
  - exists n. rewrite IH at 1. reflexivity.
Qed.

(** ... and it removes the whole run. *)
Lemma rstrip_no_trailing (ch : ascii) (s : string) :
  ends_with ch (rstrip ch s) = false.
Proof.
  unfold ends_with. induction s as [|c r IH]; [reflexivity|].
  rewrite rstrip_cons. destruct (rstrip ch r) as [|c' r'] eqn:E.
  - destruct (Ascii.eqb c ch) eqn:Ec; [reflexivity|]. simpl. exact Ec.
  - change (last_char (String c (String c' r')))
      with (match last_char (String c' r') with Some x => Some x | None => Some c end).
    destruct (last_char (String c' r')) eqn:El; [exact IH|].
    simpl in El. destruct (last_char r'); discriminate.
Qed.

Lemma startswith_snoc (ch : ascii) (s p : string) :
  (exists c, last_char p = Some c /\ c <> ch) ->
  startswith (s +:+ String ch EmptyString) p = true -> startswith s p = true.
Proof.
  revert p. induction s as [|d s IH]; intros p (c & Hl & Hne) Hs.
  - rewrite app_empty_l in Hs. destruct p as [|a p]; [discriminate|].
    simpl in Hs. apply andb_prop in Hs as [Ha Hp].
    destruct p; [|discriminate]. simpl in Hl. injection Hl as ->.
    apply Ascii.eqb_eq in Ha. congruence.
  - rewrite app_cons in Hs. destruct p as [|a p]; [reflexivity|].
    simpl in Hs. apply andb_prop in Hs as [Ha Hp]. simpl. rewrite Ha. simpl.
    destruct p as [|a' p']; [apply startswith_empty|].
    apply IH; [|exact Hp]. exists c. split; [|exact Hne].
    simpl in Hl. simpl. destruct (last_char p'); exact Hl.
Qed.

(** A text that does not end in [ch] occurs in [s] exactly when it
    occurs in [s] without its trailing [ch]s. *)
Lemma str_in_snoc (ch : ascii) (s p : string) :
  (exists c, last_char p = Some c /\ c <> ch) ->
  str_in p (s +:+ String ch EmptyString) = str_in p s.
Proof.
  intros Hp. apply eq_true_iff_eq. split.
  - induction s as [|d s IH]; intros Hs.
    + rewrite app_empty_l, str_in_cons in Hs. apply orb_prop in Hs as [Hs|Hs].
      * apply (startswith_snoc ch EmptyString p Hp) in Hs.
        rewrite str_in_empty. destruct p; [reflexivity|discriminate].
      * exact Hs.
    + rewrite app_cons, str_in_cons in Hs. rewrite str_in_cons.
      apply orb_prop in Hs as [Hs|Hs].
      * rewrite <- app_cons in Hs. apply (startswith_snoc ch _ p Hp) in Hs.
        rewrite Hs. reflexivity.
      * rewrite (IH Hs). apply orb_true_r.
  - intros Hs. apply str_in_occurs in Hs as (a & b & ->).
    apply str_in_occurs. exists a, (b +:+ String ch EmptyString).
    rewrite !app_assoc. reflexivity.
Qed.

Lemma repeat_char_snoc (ch : ascii) (n : nat) :
  repeat_char ch (S n) = repeat_char ch n +:+ String ch EmptyString.
Proof.
  induction n as [|n IH]; [reflexivity|].
  change (repeat_char ch (S (S n))) with (String ch (repeat_char ch (S n))).
  rewrite IH at 1. reflexivity.
Qed.

Lemma str_in_rstrip (ch : ascii) (s p : string) :
  (exists c, last_char p = Some c /\ c <> ch) ->
  str_in p (rstrip ch s) = str_in p s.
Proof.
  intros Hp. destruct (rstrip_decompose ch s) as [n Hn].
  rewrite Hn at 2. generalize (rstrip ch s). clear Hn. intros r.
  induction n as [|n IH]; [rewrite app_empty_r; reflexivity|].
  rewrite repeat_char_snoc, <- app_assoc, str_in_snoc by exact Hp. exact IH.
Qed.

(** [split_head] cuts at the first [ch]. *)
Lemma split_head_spec (ch : ascii) (s : string) :
  str_in (String ch EmptyString) s = true ->
  exists rest, s = split_head ch s +:+ String ch rest.
Proof.
  induction s as [|c r IH]; intros Hs; [discriminate|].
  simpl split_head. destruct (Ascii.eqb c ch) eqn:Ec.
  - apply Ascii.eqb_eq in Ec. subst c. exists r. reflexivity.
  - rewrite str_in_cons in Hs. apply orb_prop in Hs as [Hs|Hs].
    + simpl in Hs. rewrite Ascii.eqb_sym, Ec in Hs. discriminate.
    + destruct (IH Hs) as [rest Hr]. exists rest. rewrite app_cons, <- Hr. reflexivity.
Qed.

Lemma split_head_free (ch : ascii) (s : string) :
  str_in (String ch EmptyString) (split_head ch s) = false.
Proof.
  induction s as [|c r IH]; [reflexivity|].
  simpl split_head. destruct (Ascii.eqb c ch) eqn:Ec; [reflexivity|].
  rewrite str_in_cons, IH. simpl. rewrite Ascii.eqb_sym, Ec. reflexivity.
Qed.

End PyStrFacts.

(** ** URL cleaning and classification *)

Module CleanFacts.
Import PyStr PyStrFacts Clean.

(** The two tests of [clean_url] give the same answer on the URL with
    and without its trailing slashes: no text they look for ends in a
    slash. *)
Lemma drop_test_rstrip (url : string) :
  str_in "?" (rstrip slash url)
  && negb (existsb (fun param => str_in param (rstrip slash url)) essential_params)
  = drops_query url.
Proof.
  unfold drops_query, essential_params. simpl existsb.
  rewrite !str_in_rstrip; try (eexists; split; [reflexivity|discriminate]).
  rewrite orb_false_r, !negb_orb, !andb_assoc. reflexivity.
Qed.

(** C10. [clean_url] removes the whole run of trailing slashes, and then
    cuts the URL at its first question mark exactly when the URL has a
    question mark and none of [id=], [page=], [view=] occurs anywhere in
    it; otherwise the URL without its trailing slashes is returned. *)
Theorem clean_url_strips_and_drops (url : string) :
  clean_url url = clean_url_spec url
  /\ (exists n, url = rstrip slash url +:+ repeat_char slash n)
  /\ ends_with slash (rstrip slash url) = false
  /\ (if drops_query url
      then str_in "?" (clean_url url) = false
           /\ exists rest, rstrip slash url = clean_url url +:+ String qmark rest
      else clean_url url = rstrip slash url).
Proof.
  assert (Heq : clean_url url = clean_url_spec url).
  { unfold clean_url, clean_url_spec. rewrite drop_test_rstrip. reflexivity. }
  split; [exact Heq|]. split; [apply rstrip_decompose|].
  split; [apply rstrip_no_trailing|].
  rewrite Heq. unfold clean_url_spec. destruct (drops_query url) eqn:Ed; [|reflexivity].
  split; [apply split_head_free|].
  apply split_head_spec. rewrite str_in_rstrip by (eexists; split; [reflexivity|discriminate]).
  unfold drops_query in Ed. repeat (apply andb_prop in Ed as [Ed _]). exact Ed.
Qed.

Example clean_url_trailing : clean_url "https://mosdac.gov.in/missions///" = "https://mosdac.gov.in/missions".
Proof. reflexivity. Qed.

Example clean_url_query : clean_url "https://mosdac.gov.in/list?sort=asc" = "https://mosdac.gov.in/list".
Proof. reflexivity. Qed.

Example clean_url_essential : clean_url "https://mosdac.gov.in/list?page=2" = "https://mosdac.gov.in/list?page=2".
Proof. reflexivity. Qed.

(** The marker may sit in the path. *)
Example clean_url_marker_in_path : clean_url "https://mosdac.gov.in/grid=4/list?sort=asc" = "https://mosdac.gov.in/grid=4/list?sort=asc".
Proof. reflexivity. Qed.

(** The slash that ends the path is kept when a query is dropped. *)
Example clean_url_slash_before_query : clean_url "http://a/b/?x=1" = "http://a/b/".
Proof. reflexivity. Qed.

Example clean_text_example :
  clean_text (String " " (String " " ("a  @b" +:+ Chatbot.newline +:+ " c.  "))) = "a b c.".
Proof. reflexivity. Qed.

End CleanFacts.

Module CategoryFacts.
Import PyStr Category.

(** C5. [determine_category] is a function of the URL alone: it gives
    the category of the first of the six path markers, in their fixed
    order, that occurs in the lower-cased URL, and [other] when none
    occurs; its value is one of the seven category names; and the
    category of an extracted document is this value, whatever page was
    rendered and whichever pages were extracted before. *)
Theorem determine_category_first_marker (url : string) :
  determine_category url = first_marker_category url
  /\ In (determine_category url) category_names
  /\ forall (B : Scraper.Browser) (base : string) (soup : Scraper.Soup),
       doc_category (Scraper.extract_content base soup url)
       = Str (determine_category url).
Proof.
  split; [|split].
  - unfold determine_category, first_marker_category, path_markers. simpl List.find.
    repeat match goal with
           | |- context [if str_in ?m (lower url) then _ else _] =>
               destruct (str_in m (lower url))
           end; reflexivity.
  - unfold determine_category, category_names.
    repeat match goal with
           | |- context [if str_in ?m (lower url) then _ else _] =>
               destruct (str_in m (lower url))
           end; simpl; tauto.
  - reflexivity.
Qed.

Example category_upper_case :
  determine_category "https://mosdac.gov.in/Missions/insat-3d" = "missions".
Proof. reflexivity. Qed.

(** The order of the tests decides when two markers occur. *)
Example category_two_markers :
  determine_category "https://mosdac.gov.in/services/catalog/x" = "catalog".
Proof. reflexivity. Qed.

Example category_without_marker :
  determine_category "https://mosdac.gov.in/missions" = "other".
Proof. reflexivity. Qed.

End CategoryFacts.

(** ** The traversal *)

Module ScraperFacts.
Import Scraper.

Section Traversal.
Context `{Browser}.

(** One call of [crawl_page], with the loop over the links named. *)
Lemma crawl_page_unfold (gas : nat) (url : string) (depth max_depth : Z) (st : State) :
  crawl_page (S gas) url depth max_depth st =
  if bool_decide (url ∈ visited_urls st) || (depth >? max_depth) then Some st
  else
    let st1 := mark_visited url st in
    match driver_get url with
    | None => Some st1
    | Some soup =>
        let content := extract_content (base_url st1) soup url in
        let st2 := append_content content st1 in
        if save_ok (content_data st2)
        then crawl_links gas depth max_depth (doc_links content) st2
        else Some st2
    end.
Proof.
  simpl. destruct (bool_decide (url ∈ visited_urls st) || (depth >? max_depth));
    [reflexivity|].
  destruct (driver_get url) as [soup|]; [|reflexivity].
  match goal with |- (if ?b then _ else _) = _ => destruct b end; [|reflexivity].
  match goal with
  | |- _ = crawl_links _ _ _ ?l ?s => generalize s; generalize l
  end.
  intros links. induction links as [|link rest IH]; intros s; [reflexivity|].
  simpl. destruct (bool_decide (link ∈ visited_urls s)); [apply IH|].
  destruct (crawl_page gas link (depth + 1) max_depth s); [apply IH|reflexivity].
Qed.

(** *** Termination *)

Lemma crawl_links_returns (gas : nat) (depth max_depth : Z) :
  (forall url st, exists st', crawl_page gas url (depth + 1) max_depth st = Some st') ->
  forall links st, exists st', crawl_links gas depth max_depth links st = Some st'.
Proof.
  intros Hpage links. induction links as [|link rest IH]; intros st.
  - exists st. reflexivity.
  - simpl. destruct (bool_decide (link ∈ visited_urls st)); [apply IH|].
    destruct (Hpage link st) as [st' ->]. apply IH.
Qed.

Lemma crawl_page_returns (gas : nat) :
  forall (depth max_depth : Z), (Z.to_nat (max_depth + 1 - depth) < gas)%nat ->
  forall url st, exists st', crawl_page gas url depth max_depth st = Some st'.
Proof.
  induction gas as [|gas IH]; intros depth max_depth Hgas url st; [lia|].
  rewrite crawl_page_unfold.
  destruct (bool_decide (url ∈ visited_urls st)); simpl; [eauto|].
  destruct (depth >? max_depth) eqn:Hd; [eauto|].
  destruct (driver_get url) as [soup|]; [|eauto].
  match goal with |- exists _, (if ?b then _ else _) = _ => destruct b end; [|eauto].
  apply crawl_links_returns. apply IH. lia.
Qed.

Lemma crawl_more_gas (gas : nat) :
  forall url depth max_depth st st',
    crawl_page gas url depth max_depth st = Some st' ->
    forall extra, crawl_page (gas + extra) url depth max_depth st = Some st'.
Proof.
  induction gas as [|gas IH]; intros url depth max_depth st st' Hrun extra;
    [discriminate|].
  change (S gas + extra)%nat with (S (gas + extra)).
  rewrite crawl_page_unfold in *.
  destruct (bool_decide (url ∈ visited_urls st) || (depth >? max_depth)); [exact Hrun|].
  destruct (driver_get url) as [soup|]; [|exact Hrun]. simpl in *.
  match goal with |- (if ?b then _ else _) = _ => destruct b end; [|exact Hrun].
  revert Hrun.
  match goal with
  | |- crawl_links _ _ _ ?l ?s = _ -> _ => generalize s; generalize l
  end.
  intros links. induction links as [|link rest IHl]; intros s Hrun; [exact Hrun|].
  simpl in *. destruct (bool_decide (link ∈ visited_urls s)); [apply IHl, Hrun|].
  destruct (crawl_page gas link (depth + 1) max_depth s) as [s'|] eqn:Hs; [|discriminate].
  rewrite (IH _ _ _ _ _ Hs extra). apply IHl, Hrun.
Qed.

(** *** Each page at most once *)

Lemma urls_of_app (a b : list Doc) : urls_of (a ++ b) = urls_of a ++ urls_of b.
Proof. apply map_app. Qed.

Lemma consistent_init (base : string) : consistent (init base).
Proof.
  split; [constructor|]. intros u Hu. simpl in Hu. inversion Hu.
Qed.

Lemma consistent_step (url : string) (soup : Soup) (st : State) :
  consistent st -> url ∉ visited_urls st ->
  consistent (append_content (extract_content (base_url st) soup url)
                (mark_visited url st)).
Proof.
  intros [Hnd Hsub] Hnew. split; simpl; rewrite urls_of_app; simpl.
  - apply NoDup_app. split; [exact Hnd|]. split; [|apply NoDup_singleton].
    intros u Hu Hin. apply list_elem_of_singleton in Hin. subst u.
    apply Hnew, Hsub, Hu.
  - intros u Hu. apply elem_of_app in Hu as [Hu|Hu].
    + apply elem_of_union_r, Hsub, Hu.
    + apply list_elem_of_singleton in Hu. subst u.
      apply elem_of_union_l, elem_of_singleton. reflexivity.
Qed.

Lemma extends_refl (st : State) : consistent st -> extends st st.
Proof.
  intros Hc. split; [exact Hc|]. split; [set_solver|].
  split; [exists []; symmetry; apply app_nil_r|reflexivity].
Qed.

Lemma extends_trans (a b c : State) : extends a b -> extends b c -> extends a c.
Proof.
  intros (_ & Hv1 & [n1 Hc1] & Hb1) (Hc & Hv2 & [n2 Hc2] & Hb2).
  split; [exact Hc|]. split; [set_solver|]. split; [|congruence].
  exists (n1 ++ n2). rewrite Hc2, Hc1, <- app_assoc. reflexivity.
Qed.

Lemma crawl_links_extends (gas : nat) (depth max_depth : Z) :
  (forall url st st', consistent st ->
     crawl_page gas url (depth + 1) max_depth st = Some st' -> extends st st') ->
  forall links st st', consistent st ->
    crawl_links gas depth max_depth links st = Some st' -> extends st st'.
Proof.
  intros Hpage links. induction links as [|link rest IH]; intros st st' Hc Hrun.
  - injection Hrun as <-. apply extends_refl, Hc.
  - simpl in Hrun. destruct (bool_decide (link ∈ visited_urls st)); [eauto|].
    destruct (crawl_page gas link (depth + 1) max_depth st) as [s|] eqn:Hs;
      [|discriminate].
    pose proof (Hpage _ _ _ Hc Hs) as Hstep.
    apply (extends_trans _ _ _ Hstep). apply IH; [apply Hstep|exact Hrun].
Qed.

Lemma crawl_page_extends (gas : nat) :
  forall url depth max_depth st st', consistent st ->
    crawl_page gas url depth max_depth st = Some st' -> extends st st'.
Proof.
  induction gas as [|gas IH]; intros url depth max_depth st st' Hc Hrun; [discriminate|].
  rewrite crawl_page_unfold in Hrun.
  destruct (bool_decide (url ∈ visited_urls st)) eqn:Hv; simpl in Hrun;
    [injection Hrun as <-; apply extends_refl, Hc|].
  apply bool_decide_eq_false in Hv.
  destruct (depth >? max_depth); [injection Hrun as <-; apply extends_refl, Hc|].
  assert (Hmark : extends st (mark_visited url st)).
  { destruct Hc as [Hnd Hsub]. split; [split; [exact Hnd|]|].
    - intros u Hu. apply elem_of_union_r, Hsub, Hu.
    - split; [simpl; set_solver|].
      split; [exists []; symmetry; apply app_nil_r|reflexivity]. }
  destruct (driver_get url) as [soup|]; [|injection Hrun as <-; exact Hmark].
  pose proof (consistent_step url soup st Hc Hv) as Hc2.
  assert (Hstep : extends st (append_content (extract_content (base_url st) soup url)
                                (mark_visited url st))).
  { split; [exact Hc2|]. split; [simpl; set_solver|].
    split; [eexists; reflexivity|reflexivity]. }
  match type of Hrun with (if ?b then _ else _) = _ => destruct b end;
    [|injection Hrun as <-; exact Hstep].
  apply (extends_trans _ _ _ Hstep).
  refine (crawl_links_extends gas depth max_depth _ _ _ _ Hc2 Hrun).
  intros u s s'. apply IH.
Qed.


Lemma crawl_page_visited (gas : nat) (url : string) (depth max_depth : Z) (st : State) :
  url ∈ visited_urls st -> crawl_page (S gas) url depth max_depth st = Some st.
Proof.
  intros Hv. rewrite crawl_page_unfold, (bool_decide_eq_true_2 _ Hv). reflexivity.
Qed.

(** X22. A URL that is crawled is marked visited when the call returns,
    whether or not its page could be rendered. *)
Lemma crawl_page_marks (gas : nat) (url : string) (depth max_depth : Z) (st st' : State) :
  consistent st -> depth <= max_depth ->
  crawl_page gas url depth max_depth st = Some st' -> url ∈ visited_urls st'.
Proof.
  intros Hc Hd Hrun. destruct gas as [|gas]; [discriminate|].
  destruct (decide (url ∈ visited_urls st)) as [Hv|Hv].
  - rewrite (crawl_page_visited _ _ _ _ _ Hv) in Hrun. injection Hrun as <-. exact Hv.
  - rewrite crawl_page_unfold, (bool_decide_eq_false_2 _ Hv) in Hrun.
    assert (Hle : (depth >? max_depth) = false)
      by (rewrite Z.gtb_ltb; apply Z.ltb_ge; lia).
    rewrite Hle in Hrun. simpl in Hrun.
    assert (Hm : url ∈ visited_urls (mark_visited url st)) by (simpl; set_solver).
    destruct (driver_get url) as [soup|]; [|injection Hrun as <-; exact Hm].
    match type of Hrun with (if ?b then _ else _) = _ => destruct b end;
      [|injection Hrun as <-; exact Hm].
    pose proof (consistent_step url soup st Hc Hv) as Hc2.
    assert (Hext : forall u s s', consistent s ->
              crawl_page gas u (depth + 1) max_depth s = Some s' -> extends s s')
      by (intros u s s'; apply crawl_page_extends).
    destruct (crawl_links_extends gas depth max_depth Hext _ _ _ Hc2 Hrun)
      as (_ & Hsub & _).
    apply Hsub. exact Hm.
Qed.

(** C3. A call of [crawl_page] returns, whatever pages the browser
    renders and whatever they link to: [max_depth + 2 - depth] nested
    calls are enough, and more gas gives the same session. *)
Theorem crawl_page_terminates (url : string) (depth max_depth : Z) (st : State) :
  exists st', forall extra : nat,
    crawl_page (enough_gas depth max_depth + extra) url depth max_depth st = Some st'.
Proof.
  destruct (crawl_page_returns (enough_gas depth max_depth) depth max_depth
              ltac:(unfold enough_gas; lia) url st) as [st' Hst'].
  exists st'. intros extra. apply crawl_more_gas, Hst'.
Qed.

Lemma start_crawling_returns (st : State) : exists st', start_crawling st = Some st'.
Proof. apply crawl_page_returns. unfold enough_gas. lia. Qed.

(** C4. Starting from a session in which every extracted URL is marked
    visited and no URL was extracted twice, a call of [crawl_page]
    leaves a session in which no URL was extracted twice; the visited
    set has only grown, the document list was only appended to, and
    every extracted URL is marked visited. *)
Theorem crawl_page_extracts_once (gas : nat) (url : string) (depth max_depth : Z)
    (st st' : State) :
  consistent st ->
  crawl_page gas url depth max_depth st = Some st' ->
  NoDup (urls_of (content_data st'))
  /\ visited_urls st ⊆ visited_urls st'
  /\ (exists new, content_data st' = content_data st ++ new)
  /\ (forall u, u ∈ urls_of (content_data st') -> u ∈ visited_urls st').
Proof.
  intros Hc Hrun.
  destruct (crawl_page_extends gas url depth max_depth st st' Hc Hrun)
    as ([Hnd Hsub] & Hv & Hnew & _).
  auto.
Qed.

(** A whole run of a fresh scraper extracts no URL twice. *)
Lemma start_crawling_extracts_once (base : string) (st' : State) :
  start_crawling (init base) = Some st' -> NoDup (urls_of (content_data st')).
Proof.
  intros Hrun. apply (crawl_page_extends _ _ _ _ _ _ (consistent_init base) Hrun).
Qed.

End Traversal.

(** The cyclic site: the crawl returns, each page is extracted once, the
    page of the other host is not visited, the page that fails to render
    is visited and not extracted. *)
Example crawl_cyclic_site :
  option_map (fun st => (urls_of (content_data st), elements (visited_urls st)))
    (@start_crawling Fixtures.cyclic_site (init Fixtures.seed))
  = Some ([Fixtures.seed; Fixtures.missions_page],
          [Fixtures.missions_page; Fixtures.broken_page; Fixtures.seed]).
Proof. vm_compute. reflexivity. Qed.

(** With [max_depth = 0] the seed alone is extracted. *)
Example crawl_depth_zero :
  option_map (fun st => urls_of (content_data st))
    (@crawl_page Fixtures.cyclic_site 2 Fixtures.seed 0 0 (init Fixtures.seed))
  = Some [Fixtures.seed].
Proof. vm_compute. reflexivity. Qed.

Lemma crawl_page_extracts_once_witness :
  match @crawl_page Fixtures.cyclic_site 5 Fixtures.seed 0 3 (init Fixtures.seed) with
  | Some st' =>
      NoDup (urls_of (content_data st'))
      /\ visited_urls (init Fixtures.seed) ⊆ visited_urls st'
      /\ (exists new, content_data st' = content_data (init Fixtures.seed) ++ new)
      /\ (forall u, u ∈ urls_of (content_data st') -> u ∈ visited_urls st')
  | None => False
  end.
Proof.
  destruct (@crawl_page Fixtures.cyclic_site 5 Fixtures.seed 0 3 (init Fixtures.seed))
    as [st'|] eqn:Hrun.
  - exact (@crawl_page_extracts_once Fixtures.cyclic_site 5 Fixtures.seed 0 3
             (init Fixtures.seed) st' (consistent_init Fixtures.seed) Hrun).
  - vm_compute in Hrun. discriminate Hrun.
Defined.

End ScraperFacts.

(** ** The document store *)

Module IndexerFacts.
Import Indexer.

Section Store.
Context `{Postgres}.

Lemma search_returns (st : Store) (query : string) (category : option string)
    (size : Z) :
  exists found, snd (search st query category size) = Ok found.
Proof.
  unfold search.
  destruct (cursor_select st (Clean.clean_text query) (category_filter category) size);
    eauto.
Qed.

Lemma search_catches_store_error (st : Store) (query : string)
    (category : option string) (size : Z) (e : exn) :
  cursor_select st (Clean.clean_text query) (category_filter category) size = Raise e ->
  search st query category size = (["Error searching: " +:+ exn_message e], Ok []).
Proof. intros Hfail. unfold search. rewrite Hfail. reflexivity. Qed.

(** C1, as the code has it.  When the store raises during [search],
    the error is caught: [search] writes one line to the log and
    returns the empty list, the value it also returns when the store
    answers that nothing matches. *)
Theorem search_store_error_gives_empty (st : Store) (query : string)
    (category : option string) (size : Z) (e : exn) :
  cursor_select st (Clean.clean_text query) (category_filter category) size = Raise e ->
  search st query category size = (["Error searching: " +:+ exn_message e], Ok [])
  /\ snd (search st query category size) <> Raise e.
Proof.
  intros Hfail. rewrite (search_catches_store_error _ _ _ _ _ Hfail).
  split; [reflexivity|discriminate].
Qed.

Lemma search_no_match_gives_empty (st : Store) (query : string)
    (category : option string) (size : Z) :
  cursor_select st (Clean.clean_text query) (category_filter category) size = Ok [] ->
  search st query category size = ([], Ok []).
Proof. intros Hnone. unfold search. rewrite Hnone. reflexivity. Qed.

Lemma cursor_select_fault (st : Store) (msg query : string)
    (category : option string) (size : Z) :
  fault st = Some msg ->
  cursor_select st query category size = Raise (DatabaseError msg).
Proof. intros Hf. unfold cursor_select. rewrite Hf. reflexivity. Qed.

Lemma upsert_lookup (d : Doc) (table : gmap string Doc) :
  exists row, upsert d table !! doc_url d = Some row
              /\ doc_url row = doc_url d /\ doc_links row = doc_links d.
Proof.
  unfold upsert. eexists. rewrite lookup_insert_eq. split; [reflexivity|].
  split; reflexivity.
Qed.

(** C9, as the code has it.  The [url] of an extracted document is the
    URL that was handed to [extract_content], unchanged;
    [index_document] leaves it unchanged as well and stores the row
    under it; only the entries of [links] are passed through
    [clean_url]. *)
Theorem document_url_is_kept (B : Scraper.Browser) (base : string)
    (soup : Scraper.Soup) (url : string) (st : Store) (document : Doc) :
  doc_url (Scraper.extract_content base soup url) = url
  /\ match prepare_document document with
     | Ok d =>
         doc_url d = doc_url document
         /\ doc_links d
            = map Clean.clean_url
                (List.filter (fun l => negb (String.eqb l "")) (doc_links document))
     | Raise _ => True
     end
  /\ match index_document st document with
     | (st', Ok _) =>
         exists row, rows st' !! doc_url document = Some row
                     /\ doc_url row = doc_url document
     | (st', Raise _) => st' = st
     end.
Proof.
  split; [reflexivity|]. unfold index_document, prepare_document.
  destruct (fromisoformat (doc_crawl_timestamp document)) as [ts|]; simpl;
    [|split; [exact I|reflexivity]].
  split; [split; reflexivity|].
  unfold cursor_upsert. simpl.
  destruct (fault st); [reflexivity|].
  destruct (doc_relevance document); [reflexivity|]. simpl.
  match goal with
  | |- exists row, upsert ?d ?t !! _ = _ /\ _ =>
      destruct (upsert_lookup d t) as (row & Hrow & Hurl & _)
  end.
  exists row. split; [exact Hrow|exact Hurl].
Qed.

End Store.

(** C1, on a concrete store.  The connection is down and the SELECT
    raises; [search] does not raise, it returns the empty list, which is
    what the search on an empty store returns. *)
Lemma search_swallows_store_error :
  @cursor_select Fixtures.silent_db Fixtures.broken_store
    (Clean.clean_text "rainfall") None 10
  = Raise (DatabaseError "connection refused")
  /\ snd (@search Fixtures.silent_db Fixtures.broken_store "rainfall" None 10) = Ok []
  /\ snd (@search Fixtures.silent_db Fixtures.empty_store "rainfall" None 10) = Ok [].
Proof. repeat split. Qed.

Lemma search_store_error_gives_empty_witness :
  @search Fixtures.silent_db Fixtures.broken_store "rainfall" None 10
  = (["Error searching: connection refused"], Ok [])
  /\ snd (@search Fixtures.silent_db Fixtures.broken_store "rainfall" None 10)
     <> Raise (DatabaseError "connection refused").
Proof.
  exact (@search_store_error_gives_empty Fixtures.silent_db Fixtures.broken_store
           "rainfall" None 10 (DatabaseError "connection refused") eq_refl).
Defined.

(** C9, on a concrete site.  The page linked as [/missions/] is
    extracted and stored under the URL with its trailing slash, which is
    not canonical and which [clean_url] would shorten. *)
Lemma crawled_url_keeps_trailing_slash :
  option_map (fun st => map (fun d => (doc_url d, Clean.canonical (doc_url d)))
                          (Scraper.content_data st))
    (@Scraper.start_crawling Fixtures.cyclic_site (Scraper.init Fixtures.seed))
  = Some [(Fixtures.seed, true); (Fixtures.missions_page, false)]
  /\ option_map doc_url
       (rows (fst (@index_document Fixtures.silent_db Fixtures.empty_store
                     (@Scraper.extract_content Fixtures.cyclic_site Fixtures.seed
                        (Fixtures.page []) Fixtures.missions_page)))
        !! Fixtures.missions_page)
     = Some Fixtures.missions_page
  /\ Clean.clean_url Fixtures.missions_page = "https://mosdac.gov.in/missions".
Proof. vm_compute. repeat split. Qed.

End IndexerFacts.

(** ** Scoring *)

Module ScoringFacts.
Import PyStr PyStrFacts Chatbot.

Lemma find_absent (s p : string) : str_in p s = false -> find s p = -1.
Proof.
  induction s as [|c s IH]; intros Hs.
  - rewrite str_in_empty in Hs. destruct p; [discriminate|reflexivity].
  - rewrite str_in_cons in Hs. apply orb_false_elim in Hs as [Hp Hr].
    change (find (String c s) p)
      with (if startswith (String c s) p then 0
            else let i := find s p in if i <? 0 then -1 else i + 1).
    rewrite Hp, (IH Hr). reflexivity.
Qed.

Lemma find_present (s p : string) : str_in p s = true -> 0 <= find s p.
Proof.
  induction s as [|c s IH]; intros Hs.
  - rewrite str_in_empty in Hs. destruct p; [simpl; lia|discriminate].
  - change (find (String c s) p)
      with (if startswith (String c s) p then 0
            else let i := find s p in if i <? 0 then -1 else i + 1).
    rewrite str_in_cons in Hs. destruct (startswith (String c s) p); [lia|].
    simpl in Hs. specialize (IH Hs). simpl.
    destruct (find s p <? 0) eqn:E; lia.
Qed.

(** The test of the inner loop when the other keyword is absent from
    the content: [find] answers [-1] for it, and the bonus is given as
    soon as the keyword itself starts within the first 49 characters. *)
Lemma proximity_with_absent_keyword (content keyword other : string) :
  str_in keyword content = true ->
  str_in other content = false ->
  proximity_points content keyword other
  = if Z.abs (find content keyword + 1) <? 50 then 3 else 0.
Proof.
  intros Hk Ho. unfold proximity_points.
  destruct (String.eqb other keyword) eqn:E.
  - apply String.eqb_eq in E. congruence.
  - simpl. rewrite (find_absent _ _ Ho).
    replace (find content keyword - -1) with (find content keyword + 1) by lia.
    reflexivity.
Qed.

Section Scores.
Context `{Nltk}.



Lemma accumulate_nonneg {A : Type} (f : A -> Z) (l : list A) (r : Z) :
  (forall x, 0 <= f x) -> 0 <= r -> 0 <= accumulate f l r.
Proof.
  intros Hf. unfold accumulate. revert r.
  induction l as [|x l IH]; intros r Hr; simpl; [exact Hr|].
  apply IH. specialize (Hf x). lia.
Qed.





End Scores.

(** C2, evaluated.  The content is [rain]; the keyword [snow] does not
    occur in it, and yet the pair ([rain], [snow]) earns the proximity
    bonus: the score is 0.8 where the content match alone gives 0.5. *)
Theorem proximity_bonus_for_absent_keyword :
  str_in "snow" "rain" = false
  /\ find "rain" "snow" = -1
  /\ @calculate_relevance Fixtures.plain_nltk []
       (Fixtures.sample_doc "u" (Str "") "rain") ["rain"; "snow"] = Ok 8
  /\ @calculate_relevance Fixtures.plain_nltk []
       (Fixtures.sample_doc "u" (Str "") "rain") ["rain"] = Ok 5.
Proof. vm_compute. repeat split. Qed.

(** The bonus stops when the keyword starts at offset 49 or later. *)
Example proximity_absent_far :
  @calculate_relevance Fixtures.plain_nltk []
    (Fixtures.sample_doc "u" (Str "") (repeat_char " "%char 49 +:+ "rain"))
    ["rain"; "snow"] = Ok 5.
Proof. vm_compute. reflexivity. Qed.

(** Both keywords occur, 5 characters apart: each ordered pair earns
    the bonus. *)
Example proximity_both_present :
  @calculate_relevance Fixtures.plain_nltk []
    (Fixtures.sample_doc "u" (Str "") "rain snow") ["rain"; "snow"] = Ok 16.
Proof. vm_compute. reflexivity. Qed.



End ScoringFacts.

(** ** Summaries *)

Module SummaryFacts.
Import PyStr PyStrFacts Chatbot.

Lemma insert_desc_perm {A : Type} (ge : A -> A -> bool) (x : A) (l : list A) :
  insert_desc ge x l ≡ₚ x :: l.
Proof.
  induction l as [|y l IH]; simpl; [reflexivity|].
  destruct (ge x y); [reflexivity|]. rewrite IH. apply Permutation_swap.
Qed.

Lemma sort_desc_perm {A : Type} (ge : A -> A -> bool) (l : list A) :
  sort_desc ge l ≡ₚ l.
Proof.
  induction l as [|x l IH]; simpl; [reflexivity|].
  rewrite insert_desc_perm, IH. reflexivity.
Qed.

Lemma rescored_refl (l : list Doc) : Forall2 rescored l l.
Proof. induction l; constructor; [left; reflexivity|assumption]. Qed.


Lemma no_results_is_not_low_relevance (query : string) :
  no_results_message query <> low_relevance_message query.
Proof.
  intros Heq. apply (f_equal (String.get 2)) in Heq.
  vm_compute in Heq. discriminate Heq.
Qed.

Lemma messages_nonempty (query : string) :
  no_results_message query <> "" /\ low_relevance_message query <> "".
Proof. split; intros Heq; apply (f_equal (String.get 0)) in Heq; discriminate Heq. Qed.

Lemma join_nonempty (sep : string) (c : ascii) (first : string) (rest : list string) :
  join sep (String c first :: rest) <> "".
Proof. unfold join. destruct rest; simpl; discriminate. Qed.

Section Summaries.
Context `{Nltk}.

(** The scoring loop leaves every document as it was, up to the key
    ['relevance']. *)
Lemma score_all_rescored (h keywords : list string) (results : list Doc) :
  Forall2 rescored results (fst (score_all h keywords results)).
Proof.
  induction results as [|d rest IH]; simpl; [constructor|].
  destruct (calculate_relevance h d keywords) as [r|e]; [|apply rescored_refl].
  destruct (score_all h keywords rest) as [rest' outcome]. simpl in *.
  constructor; [right; exists r; reflexivity|exact IH].
Qed.

(** When every document has a score, the loop writes it. *)
Lemma score_all_scores (h keywords : list string) (results : list Doc) :
  Forall (fun d => exists r, calculate_relevance h d keywords = Ok r) results ->
  exists scored,
    score_all h keywords results = (scored, Ok tt)
    /\ Forall2 (fun d d' => exists r, calculate_relevance h d keywords = Ok r
                                     /\ d' = set_relevance d r) results scored.
Proof.
  induction 1 as [|d rest [r Hr] _ (scored & Hs & IH)]; simpl.
  - exists []. split; [reflexivity|constructor].
  - rewrite Hr, Hs. exists (set_relevance d r :: scored).
    split; [reflexivity|]. constructor; [exists r; auto|exact IH].
Qed.

Lemma calculate_relevance_text (h keywords : list string) (d : Doc) :
  text_fields_ok d = true -> exists r, calculate_relevance h d keywords = Ok r.
Proof.
  unfold text_fields_ok, calculate_relevance. intros Hd.
  apply andb_prop in Hd as [Hd Hcat]. apply andb_prop in Hd as [Hd Hcon].
  apply andb_prop in Hd as [Htitle Hdesc].
  destruct (doc_title d); try discriminate;
    destruct (doc_meta_description d); try discriminate;
    destruct (doc_text_content d); try discriminate;
    destruct (doc_category d); try discriminate; simpl; eauto.
Qed.


Lemma summarize_results_empty (h : list string) (query : string) :
  summarize_results h [] query = ([], Ok (no_results_message query)).
Proof. reflexivity. Qed.

Lemma filter_none {A : Type} (p : A -> bool) (l : list A) :
  Forall (fun x => p x = false) l -> List.filter p l = [].
Proof. induction 1 as [|x l Hx _ IH]; simpl; [reflexivity|]. rewrite Hx. exact IH. Qed.

(** X25. A non-empty list whose documents all score below 0.5 gives
    the low-relevance message. *)
Lemma summarize_results_low_relevance (h : list string) (results : list Doc)
    (query : string) :
  results <> [] ->
  Forall (fun d => exists r, calculate_relevance h d (preprocess_query query) = Ok r
                             /\ r < min_relevance) results ->
  snd (summarize_results h results query) = Ok (low_relevance_message query).
Proof.
  intros Hne Hlow. unfold summarize_results.
  destruct results as [|d0 rest]; [congruence|]. simpl Scraper.nonempty. simpl negb.
  cbv iota.
  destruct (score_all_scores h (preprocess_query query) (d0 :: rest)) as (scored & -> & Hs).
  { eapply Forall_impl; [exact Hlow|]. intros d (r & Hr & _). eauto. }
  assert (Hall : Forall (fun d => (min_relevance <=? relevance_or_0 d) = false) scored).
  { clear Hne. revert Hlow. induction Hs as [|d d' l l' (r & Hr & ->) _ IH];
      intros Hlow; constructor.
    - apply Forall_cons in Hlow as [(r' & Hr' & Hlt) _].
      unfold relevance_or_0. simpl. apply Z.leb_gt. congruence.
    - apply IH. apply Forall_cons in Hlow as [_ Hlow]. exact Hlow. }
  rewrite filter_none; [reflexivity|].
  rewrite sort_desc_perm. exact Hall.
Qed.

(** *** Documents whose text fields are strings *)

Lemma filter_Forall {A : Type} (P : A -> Prop) (p : A -> bool) (l : list A) :
  Forall P l -> Forall P (List.filter p l).
Proof.
  induction 1 as [|x l Hx _ IH]; simpl; [constructor|].
  destruct (p x); [constructor; assumption|exact IH].
Qed.

Lemma group_add_ok (k : option string) (d : Doc)
    (groups : list (option string * list Doc)) :
  k <> None -> text_fields_ok d = true -> groups_ok groups ->
  groups_ok (group_add k d groups).
Proof.
  intros Hk Hd. induction 1 as [|[k' ds] g [Hk' Hds] Hg IH]; simpl.
  - constructor; [|constructor]. split; [exact Hk|]. constructor; [exact Hd|constructor].
  - simpl in Hk', Hds. destruct (bool_decide (k = k')).
    + constructor; [|exact Hg]. split; [exact Hk'|]. simpl.
      apply Forall_app. split; [exact Hds|]. constructor; [exact Hd|constructor].
    + constructor; [|exact IH]. split; assumption.
Qed.

Lemma category_key_text (d : Doc) :
  text_fields_ok d = true -> get_or "General" (doc_category d) <> None.
Proof.
  unfold text_fields_ok. intros Hd. apply andb_prop in Hd as [_ Hc].
  destruct (doc_category d); simpl; [discriminate|discriminate|discriminate].
Qed.

Lemma categorize_ok (docs : list Doc) :
  Forall (fun d => text_fields_ok d = true) docs -> groups_ok (categorize docs).
Proof.
  unfold categorize. intros Hdocs.
  assert (Hacc : groups_ok []) by constructor.
  revert Hacc. generalize (@nil (option string * list Doc)).
  induction Hdocs as [|d docs Hd _ IH]; intros acc Hacc; simpl; [exact Hacc|].
  apply IH. apply group_add_ok; [apply category_key_text, Hd|exact Hd|exact Hacc].
Qed.

Lemma render_doc_text (keywords : list string) (d : Doc) :
  text_fields_ok d = true -> exists lines, render_doc keywords d = Ok lines.
Proof.
  unfold text_fields_ok, render_doc. intros Hd.
  apply andb_prop in Hd as [Hd _]. apply andb_prop in Hd as [_ Hcon].
  destruct (doc_text_content d); try discriminate; simpl; eauto.
Qed.

Lemma render_docs_text (keywords : list string) (docs : list Doc) :
  Forall (fun d => text_fields_ok d = true) docs ->
  exists lines, render_docs keywords docs = Ok lines.
Proof.
  induction 1 as [|d docs Hd _ [more IH]]; simpl; [eauto|].
  destruct (render_doc_text keywords d Hd) as [lines ->]. simpl.
  rewrite IH. simpl. eauto.
Qed.

Lemma render_groups_text (keywords : list string)
    (groups : list (option string * list Doc)) :
  groups_ok groups -> exists lines, render_groups keywords groups = Ok lines.
Proof.
  induction 1 as [|[k ds] g [Hk Hds] _ [more IH]]; simpl; [eauto|].
  simpl in Hk. destruct k as [c|]; [|congruence]. simpl.
  destruct (render_docs_text keywords ds Hds) as [lines ->]. simpl.
  rewrite IH. simpl. eauto.
Qed.



(** X24. On documents that hold a list under ['links'], as every [Doc]
    does, and no [None] under the four text keys, the summarizer returns
    a non-empty string. *)
Lemma summarize_results_text (h : list string) (results : list Doc) (query : string) :
  Forall (fun d => text_fields_ok d = true) results ->
  exists s, snd (summarize_results h results query) = Ok s /\ s <> "".
Proof.
  intros Hok. unfold summarize_results.
  destruct (Scraper.nonempty results); simpl;
    [|eexists; split; [reflexivity|apply messages_nonempty]].
  destruct (score_all_scores h (preprocess_query query) results) as (scored & -> & Hs).
  { eapply Forall_impl; [exact Hok|]. intros d Hd. apply calculate_relevance_text, Hd. }
  assert (Hscored : Forall (fun d => text_fields_ok d = true) scored).
  { clear -Hok Hs. induction Hs as [|d d' l l' (r & _ & ->) _ IH]; constructor.
    - apply Forall_cons in Hok as [Hd _]. exact Hd.
    - apply IH. apply Forall_cons in Hok as [_ Hok]. exact Hok. }
  set (kept := List.filter (fun doc => min_relevance <=? relevance_or_0 doc)
                 (sort_desc by_relevance scored)).
  assert (Hkept : Forall (fun d => text_fields_ok d = true) kept).
  { apply filter_Forall. rewrite sort_desc_perm. exact Hscored. }
  destruct (Scraper.nonempty kept); simpl;
    [|eexists; split; [reflexivity|apply messages_nonempty]].
  destruct (render_groups_text (preprocess_query query) (categorize kept)
              (categorize_ok kept Hkept)) as [body ->]. simpl.
  eexists. split; [reflexivity|].
  change ("I found " +:+ pretty (length kept)
          +:+ " relevant results about your query:" +:+ newline)
    with (String "I"%char (" found " +:+ pretty (length kept)
          +:+ " relevant results about your query:" +:+ newline)).
  apply join_nonempty.
Qed.

End Summaries.

(** C6, evaluated.  The second document holds [None] as title, as the
    scraper writes for a page with an empty [<title>]: scoring it raises
    [AttributeError], and [summarize_results] raises with it; the first
    document has been given its score by then. *)
Theorem summarize_results_raises_on_null_title :
  @summarize_results Fixtures.plain_nltk []
    [Fixtures.sample_doc "a" (Str "Rainfall") "rain";
     Fixtures.sample_doc "b" Null "rain"] "rain"
  = ([set_relevance (Fixtures.sample_doc "a" (Str "Rainfall") "rain") 35;
      Fixtures.sample_doc "b" Null "rain"],
     Raise AttributeError).
Proof. vm_compute. reflexivity. Qed.

(** The empty title comes out of the extractor as [None]. *)
Example extracted_title_is_null :
  doc_title (@Scraper.extract_content Fixtures.cyclic_site Fixtures.seed
               (Fixtures.page []) Fixtures.seed) = Null.
Proof. reflexivity. Qed.


Example summarize_results_sample :
  snd (@summarize_results Fixtures.plain_nltk []
         [Fixtures.sample_doc "b" (Str "Rainfall") "rain"] "rain")
  = Ok ("I found 1 relevant results about your query:" +:+ newline
        +:+ newline +:+ newline +:+ pin_glyph +:+ " OTHER:"
        +:+ newline +:+ newline +:+ bullet_glyph +:+ " Rainfall"
        +:+ newline +:+ "  Key points:"
        +:+ newline +:+ "  - rain"
        +:+ newline +:+ "  Confidence: 70%").
Proof. vm_compute. reflexivity. Qed.

(** X23. A store whose connection is down makes the chatbot answer that
    it found nothing about the query. *)
Lemma chat_on_broken_store `{Nltk} `{Indexer.Postgres} (s : Session)
    (msg query : string) :
  Indexer.fault (store s) = Some msg ->
  snd (chat s query) = Ok (no_results_message query).
Proof.
  intros Hf. unfold chat.
  rewrite (IndexerFacts.search_catches_store_error _ _ _ _ _
             (IndexerFacts.cursor_select_fault _ msg _ _ _ Hf)).
  simpl.
  destruct (Scraper.nonempty (preprocess_query query)); [|reflexivity].
  rewrite (IndexerFacts.search_catches_store_error _ _ _ _ _
             (IndexerFacts.cursor_select_fault _ msg _ _ _ Hf)).
  reflexivity.
Qed.

End SummaryFacts.

(** ** More on the traversal and the extractor *)

Module TraversalFacts.
Import Scraper Vocabulary ScraperFacts.

Lemma filter_all_true {A : Type} (p : A -> bool) (l : list A) :
  Forall (fun x => p x = true) (List.filter p l).
Proof.
  induction l as [|x l IH]; simpl; [constructor|].
  destruct (p x) eqn:E; [constructor; assumption|exact IH].
Qed.

Section Produced.
Context `{Browser}.

Lemma extracted_links_valid (base : string) (soup : Soup) (url : string) :
  Forall (fun l => is_valid_url base l = true) (doc_links (extract_content base soup url)).
Proof. apply filter_all_true. Qed.

Lemma adds_nothing (url : string) (st st' : State) :
  base_url st' = base_url st -> content_data st' = content_data st -> adds url st st'.
Proof.
  intros Hb Hc. split; [exact Hb|]. exists []. rewrite Hc, app_nil_r. split; [reflexivity|constructor].
Qed.

Lemma crawl_links_adds (gas : nat) (depth max_depth : Z) (base : string) :
  (forall url st st', crawl_page gas url (depth + 1) max_depth st = Some st' ->
                      adds url st st') ->
  forall links st st',
    base_url st = base ->
    Forall (fun l => is_valid_url base l = true) links ->
    crawl_links gas depth max_depth links st = Some st' ->
    base_url st' = base
    /\ exists new, content_data st' = content_data st ++ new
                   /\ Forall (fun d => rendered base d
                                       /\ is_valid_url base (doc_url d) = true) new.
Proof.
  intros Hpage links. induction links as [|link rest IH]; intros st st' Hb Hvalid Hrun.
  - injection Hrun as <-. split; [exact Hb|]. exists []. rewrite app_nil_r.
    split; [reflexivity|constructor].
  - apply Forall_cons in Hvalid as [Hlink Hrest]. simpl in Hrun.
    destruct (bool_decide (link ∈ visited_urls st)); [eauto|].
    destruct (crawl_page gas link (depth + 1) max_depth st) as [s|] eqn:Hs; [|discriminate].
    destruct (Hpage _ _ _ Hs) as (Hbs & new1 & Hc1 & Hn1). rewrite Hb in Hbs, Hn1.
    destruct (IH s st' Hbs Hrest Hrun) as (Hb' & new2 & Hc2 & Hn2).
    split; [exact Hb'|]. exists (new1 ++ new2). rewrite Hc2, Hc1, <- app_assoc.
    split; [reflexivity|]. apply Forall_app. split; [|exact Hn2].
    eapply Forall_impl; [exact Hn1|]. intros d [Hr [Hu|Hu]]; split; auto.
    rewrite Hu. exact Hlink.
Qed.

Lemma crawl_page_adds (gas : nat) :
  forall url depth max_depth st st',
    crawl_page gas url depth max_depth st = Some st' -> adds url st st'.
Proof.
  induction gas as [|gas IH]; intros url depth max_depth st st' Hrun; [discriminate|].
  rewrite crawl_page_unfold in Hrun.
  destruct (bool_decide (url ∈ visited_urls st) || (depth >? max_depth));
    [injection Hrun as <-; apply adds_nothing; reflexivity|].
  destruct (driver_get url) as [soup|] eqn:Hget;
    [|injection Hrun as <-; apply adds_nothing; reflexivity].
  set (content := extract_content (base_url st) soup url) in *.
  assert (Hcontent : rendered (base_url st) content /\ within (base_url st) url content).
  { split; [exists soup; split; [exact Hget|reflexivity]|left; reflexivity]. }
  cbv zeta in Hrun.
  match type of Hrun with (if ?b then _ else _) = _ => destruct b end.
  - change (base_url (mark_visited url st)) with (base_url st) in Hrun. fold content in Hrun.
    destruct (crawl_links_adds gas depth max_depth (base_url st)
                (fun u s s' => IH u (depth + 1) max_depth s s')
                (doc_links content) (append_content content (mark_visited url st)) st'
                eq_refl (extracted_links_valid (base_url st) soup url) Hrun)
      as (Hb & new & Hc & Hn).
    split; [exact Hb|]. exists (content :: new). split.
    + rewrite Hc. simpl. rewrite <- app_assoc. reflexivity.
    + constructor; [exact Hcontent|].
      eapply Forall_impl; [exact Hn|]. intros d [Hr Hv]. split; [exact Hr|right; exact Hv].
  - injection Hrun as <-. split; [reflexivity|]. exists [content].
    split; [reflexivity|]. constructor; [exact Hcontent|constructor].
Qed.

(** X1. Every document a call of [crawl_page] adds is the extraction of
    the page the browser rendered for its URL: a URL whose rendering
    fails is never in the document list. *)
Theorem crawl_adds_rendered_pages (gas : nat) (url : string) (depth max_depth : Z)
    (st st' : State) :
  crawl_page gas url depth max_depth st = Some st' ->
  exists new, content_data st' = content_data st ++ new
              /\ Forall (rendered (base_url st)) new.
Proof.
  intros Hrun. destruct (crawl_page_adds gas _ _ _ _ _ Hrun) as (_ & new & Hc & Hn).
  exists new. split; [exact Hc|]. eapply Forall_impl; [exact Hn|]. intros d [Hr _]. exact Hr.
Qed.

(** X2. Every document a call of [crawl_page] adds has the URL the call
    was made for, or a URL on the host of [base_url]: no page of another
    host is extracted. *)
Theorem crawl_stays_on_host (gas : nat) (url : string) (depth max_depth : Z)
    (st st' : State) :
  crawl_page gas url depth max_depth st = Some st' ->
  exists new, content_data st' = content_data st ++ new
              /\ Forall (within (base_url st) url) new.
Proof.
  intros Hrun. destruct (crawl_page_adds gas _ _ _ _ _ Hrun) as (_ & new & Hc & Hn).
  exists new. split; [exact Hc|]. eapply Forall_impl; [exact Hn|]. intros d [_ Hw]. exact Hw.
Qed.



(** X4. What [extract_content] builds: every link is on the host of
    [base]; no table and no row of a table is empty; the description,
    the text and the category are strings, and the title is [None]
    exactly when the page has a [<title>] without a string; there is no
    key ['relevance']; and announcements are only taken when the URL is
    [base] itself. *)
Theorem extract_content_shape (base : string) (soup : Soup) (url : string) :
  Forall (fun l => is_valid_url base l = true) (doc_links (extract_content base soup url))
  /\ Forall (fun t => t <> [] /\ Forall (fun row => row <> []) t)
       (doc_tables (extract_content base soup url))
  /\ Chatbot.is_text (doc_meta_description (extract_content base soup url)) = true
  /\ Chatbot.is_text (doc_text_content (extract_content base soup url)) = true
  /\ Chatbot.is_text (doc_category (extract_content base soup url)) = true
  /\ (doc_title (extract_content base soup url) = Null <-> soup_title soup = Some None)
  /\ doc_relevance (extract_content base soup url) = None
  /\ (if String.eqb url base then True
      else doc_announcements (extract_content base soup url) = []).
Proof.
  split; [apply extracted_links_valid|]. split.
  { simpl. generalize (soup_tables soup). intros tables.
    induction tables as [|t tables IH]; simpl; [constructor|].
    destruct (nonempty (List.filter nonempty t)) eqn:Et; [|exact IH].
    constructor; [|exact IH]. split.
    - intros Heq. rewrite Heq in Et. discriminate.
    - eapply Forall_impl; [apply filter_all_true|].
      intros row Hrow Heq. rewrite Heq in Hrow. discriminate. }
  simpl. split; [destruct (soup_meta soup) as [[c|]|]; reflexivity|].
  split; [destruct (soup_main_text soup); reflexivity|].
  split; [reflexivity|]. split.
  - destruct (soup_title soup) as [[t|]|]; split; intros Heq; congruence.
  - split; [reflexivity|]. destruct (String.eqb url base); [exact I|reflexivity].
Qed.

End Produced.

Lemma crawl_adds_rendered_pages_witness :
  match @crawl_page Fixtures.cyclic_site 5 Fixtures.seed 0 3 (init Fixtures.seed) with
  | Some st' =>
      exists new, content_data st' = content_data (init Fixtures.seed) ++ new
                  /\ Forall (@rendered Fixtures.cyclic_site Fixtures.seed) new
  | None => False
  end.
Proof.
  destruct (@crawl_page Fixtures.cyclic_site 5 Fixtures.seed 0 3 (init Fixtures.seed))
    as [st'|] eqn:Hrun.
  - exact (@crawl_adds_rendered_pages Fixtures.cyclic_site 5 Fixtures.seed 0 3
             (init Fixtures.seed) st' Hrun).
  - vm_compute in Hrun. discriminate Hrun.
Defined.

Lemma crawl_stays_on_host_witness :
  match @crawl_page Fixtures.cyclic_site 5 Fixtures.seed 0 3 (init Fixtures.seed) with
  | Some st' =>
      exists new, content_data st' = content_data (init Fixtures.seed) ++ new
                  /\ Forall (@within Fixtures.cyclic_site Fixtures.seed Fixtures.seed) new
  | None => False
  end.
Proof.
  destruct (@crawl_page Fixtures.cyclic_site 5 Fixtures.seed 0 3 (init Fixtures.seed))
    as [st'|] eqn:Hrun.
  - exact (@crawl_stays_on_host Fixtures.cyclic_site 5 Fixtures.seed 0 3
             (init Fixtures.seed) st' Hrun).
  - vm_compute in Hrun. discriminate Hrun.
Defined.


Lemma crawl_page_marks_witness :
  match @crawl_page Fixtures.cyclic_site 5 Fixtures.broken_page 1 3 (init Fixtures.seed) with
  | Some st' => Fixtures.broken_page ∈ visited_urls st' /\ content_data st' = []
  | None => False
  end.
Proof.
  destruct (@crawl_page Fixtures.cyclic_site 5 Fixtures.broken_page 1 3 (init Fixtures.seed))
    as [st'|] eqn:Hrun.
  - split.
    + refine (@crawl_page_marks Fixtures.cyclic_site 5 Fixtures.broken_page 1 3
                (init Fixtures.seed) st' (consistent_init Fixtures.seed) _ Hrun). lia.
    + vm_compute in Hrun. injection Hrun as <-. reflexivity.
  - vm_compute in Hrun. discriminate Hrun.
Defined.

End TraversalFacts.

(** ** More on cleaning *)

Module CleaningFacts.
Import PyStr PyStrFacts Clean CleanFacts Vocabulary.

Lemma last_char_cons (c : ascii) (r : string) :
  last_char (String c r) = match last_char r with Some c' => Some c' | None => Some c end.
Proof. reflexivity. Qed.

Lemma last_char_none (s : string) : last_char s = None -> s = EmptyString.
Proof.
  destruct s as [|c r]; [reflexivity|]. rewrite last_char_cons.
  destruct (last_char r); discriminate.
Qed.

Lemma rstrip_fixed (ch : ascii) (s : string) : ends_with ch s = false -> rstrip ch s = s.
Proof.
  unfold ends_with. induction s as [|c r IH]; intros He; [reflexivity|].
  rewrite rstrip_cons. rewrite last_char_cons in He.
  destruct (last_char r) as [c'|] eqn:El.
  - rewrite (IH He). destruct r; [discriminate El|reflexivity].
  - apply last_char_none in El. subst r. simpl. rewrite He. reflexivity.
Qed.

Lemma drops_query_rstrip (url : string) :
  drops_query (rstrip slash url) = drops_query url.
Proof.
  unfold drops_query.
  rewrite !str_in_rstrip; try (eexists; split; [reflexivity|discriminate]). reflexivity.
Qed.

Lemma clean_url_cases (url : string) :
  clean_url url = if drops_query url then split_head qmark (rstrip slash url)
                  else rstrip slash url.
Proof. unfold clean_url. rewrite drop_test_rstrip. reflexivity. Qed.

Lemma drops_query_needs_qmark (url : string) :
  str_in "?" url = false -> drops_query url = false.
Proof. intros Hq. unfold drops_query. rewrite Hq. reflexivity. Qed.

Lemma drops_query_has_qmark (url : string) :
  drops_query url = true -> str_in "?" url = true.
Proof.
  unfold drops_query. intros Hd. repeat (apply andb_prop in Hd as [Hd _]). exact Hd.
Qed.

Lemma canonical_fixed (url : string) : canonical url = true -> clean_url url = url.
Proof.
  unfold canonical. intros Hc. apply andb_prop in Hc as [Hs Hd].
  apply negb_true_iff in Hs, Hd. rewrite clean_url_cases, Hd. apply rstrip_fixed, Hs.
Qed.

(** X5. The URLs that [clean_url] leaves as they are are exactly the
    canonical ones: no trailing slash, and a question mark only together
    with one of [id=], [page=], [view=]. *)
Theorem clean_url_fixed_iff_canonical (url : string) :
  clean_url url = url <-> canonical url = true.
Proof.
  split; [|apply canonical_fixed].
  intros Hfix. rewrite clean_url_cases in Hfix. unfold canonical.
  destruct (drops_query url) eqn:Hd.
  - pose proof (split_head_free qmark (rstrip slash url)) as Hfree.
    rewrite Hfix in Hfree. pose proof (drops_query_has_qmark _ Hd) as Hq.
    change (str_in "?" url = false) in Hfree. congruence.
  - rewrite <- Hfix, rstrip_no_trailing. reflexivity.
Qed.

Lemma clean_url_twice_canonical (url : string) :
  canonical (clean_url (clean_url url)) = true.
Proof.
  rewrite (clean_url_cases url). destruct (drops_query url) eqn:Hd.
  - assert (Hq : drops_query (split_head qmark (rstrip slash url)) = false)
      by apply drops_query_needs_qmark, split_head_free.
    rewrite clean_url_cases, Hq. unfold canonical.
    rewrite rstrip_no_trailing, drops_query_rstrip, Hq. reflexivity.
  - assert (Hc : canonical (rstrip slash url) = true).
    { unfold canonical. rewrite rstrip_no_trailing, drops_query_rstrip, Hd. reflexivity. }
    rewrite (canonical_fixed _ Hc). exact Hc.
Qed.

(** X6. Two passes of [clean_url] give a canonical URL, which further
    passes leave alone; one pass need not, since the slash that ended
    the path stays when a query is cut off behind it. *)
Theorem clean_url_settles_after_two (url : string) :
  canonical (clean_url (clean_url url)) = true
  /\ clean_url (clean_url (clean_url url)) = clean_url (clean_url url)
  /\ canonical (clean_url "http://a/b/?x=1") = false.
Proof.
  split; [apply clean_url_twice_canonical|].
  split; [apply canonical_fixed, clean_url_twice_canonical|reflexivity].
Qed.

(** *** [clean_text] *)

Lemma all_chars_impl (p q : ascii -> bool) (s : string) :
  (forall c, p c = true -> q c = true) ->
  Chatbot.all_chars p s = true -> Chatbot.all_chars q s = true.
Proof.
  intros Hpq. induction s as [|c r IH]; simpl; [reflexivity|].
  intros Hs. apply andb_prop in Hs as [Hc Hr]. rewrite (Hpq c Hc), (IH Hr). reflexivity.
Qed.

Lemma collapse_ws_cons (c : ascii) (r : string) :
  collapse_ws (String c r) =
  if is_space c then
    match r with
    | String c' _ => if is_space c' then collapse_ws r else String " "%char (collapse_ws r)
    | EmptyString => String " "%char EmptyString
    end
  else String c (collapse_ws r).
Proof. reflexivity. Qed.

Lemma collapse_ws_blanks (s : string) :
  Chatbot.all_chars blank_or_ink (collapse_ws s) = true.
Proof.
  induction s as [|c r IH]; [reflexivity|].
  rewrite collapse_ws_cons. destruct (is_space c) eqn:Ec.
  - destruct r as [|c' r']; [reflexivity|].
    destruct (is_space c'); [exact IH|].
    change (blank_or_ink " "%char && Chatbot.all_chars blank_or_ink (collapse_ws (String c' r'))
            = true).
    rewrite IH. reflexivity.
  - change (blank_or_ink c && Chatbot.all_chars blank_or_ink (collapse_ws r) = true).
    unfold blank_or_ink at 1. rewrite Ec, IH. reflexivity.
Qed.

Lemma drop_special_clean (s : string) :
  Chatbot.all_chars blank_or_ink s = true ->
  Chatbot.all_chars clean_char (drop_special s) = true.
Proof.
  induction s as [|c r IH]; simpl; [reflexivity|].
  intros Hs. apply andb_prop in Hs as [Hc Hr].
  destruct (is_word_char c || is_space c || is_kept_punct c) eqn:Ek; [|exact (IH Hr)].
  simpl. rewrite (IH Hr), andb_true_r. unfold clean_char. unfold blank_or_ink in Hc.
  destruct (is_word_char c); [reflexivity|]. destruct (is_kept_punct c); [apply orb_true_r|].
  simpl in *. rewrite orb_false_r in *. rewrite Ek in Hc. exact Hc.
Qed.

Lemma lstrip_ws_chars (p : ascii -> bool) (s : string) :
  Chatbot.all_chars p s = true -> Chatbot.all_chars p (lstrip_ws s) = true.
Proof.
  induction s as [|c r IH]; simpl; [reflexivity|].
  intros Hs. destruct (is_space c); [|exact Hs].
  apply andb_prop in Hs as [_ Hr]. exact (IH Hr).
Qed.

Lemma rstrip_ws_cons (c : ascii) (r : string) :
  rstrip_ws (String c r) =
  match rstrip_ws r with
  | EmptyString => if is_space c then EmptyString else String c EmptyString
  | String c' r' => String c (String c' r')
  end.
Proof. simpl. destruct (rstrip_ws r); reflexivity. Qed.

Lemma rstrip_ws_chars (p : ascii -> bool) (s : string) :
  Chatbot.all_chars p s = true -> Chatbot.all_chars p (rstrip_ws s) = true.
Proof.
  induction s as [|c r IH]; [reflexivity|].
  intros Hs. simpl in Hs. apply andb_prop in Hs as [Hc Hr]. specialize (IH Hr).
  rewrite rstrip_ws_cons. destruct (rstrip_ws r) as [|c' r'].
  - destruct (is_space c); [reflexivity|]. simpl. rewrite Hc. reflexivity.
  - change (p c && Chatbot.all_chars p (String c' r') = true). rewrite Hc, IH. reflexivity.
Qed.

Lemma lstrip_ws_head (s : string) :
  match lstrip_ws s with
  | String c _ => is_space c = false
  | EmptyString => True
  end.
Proof.
  induction s as [|c r IH]; simpl; [exact I|].
  destruct (is_space c) eqn:Ec; [exact IH|exact Ec].
Qed.

Lemma rstrip_ws_head (s : string) :
  match s with String c _ => is_space c = false | EmptyString => True end ->
  match rstrip_ws s with String c _ => is_space c = false | EmptyString => True end.
Proof.
  destruct s as [|c r]; [intros _; exact I|]. intros Hc.
  rewrite rstrip_ws_cons. destruct (rstrip_ws r); [rewrite Hc|]; exact Hc.
Qed.

Lemma rstrip_ws_last (s : string) :
  match last_char (rstrip_ws s) with
  | Some c => is_space c = false
  | None => True
  end.
Proof.
  induction s as [|c r IH]; [exact I|].
  rewrite rstrip_ws_cons. destruct (rstrip_ws r) as [|c' r'].
  - destruct (is_space c) eqn:Ec; [exact I|exact Ec].
  - rewrite last_char_cons. destruct (last_char (String c' r')) eqn:El; [exact IH|].
    apply last_char_none in El. discriminate El.
Qed.

(** In the byte model: the characters of the result and its two ends. *)
Lemma clean_text_bytes (text : string) :
  Chatbot.all_chars clean_char (clean_text text) = true
  /\ match clean_text text with
     | String c _ => is_space c = false
     | EmptyString => True
     end
  /\ match last_char (clean_text text) with
     | Some c => is_space c = false
     | None => True
     end.
Proof.
  unfold clean_text, strip. split; [|split].
  - apply rstrip_ws_chars, lstrip_ws_chars, drop_special_clean, collapse_ws_blanks.
  - apply rstrip_ws_head, lstrip_ws_head.
  - apply rstrip_ws_last.
Qed.

Lemma collapse_ws_chars (p : ascii -> bool) (s : string) :
  p " "%char = true ->
  Chatbot.all_chars p s = true -> Chatbot.all_chars p (collapse_ws s) = true.
Proof.
  intros Hsp. induction s as [|c r IH]; [reflexivity|].
  intros Hs. simpl in Hs. apply andb_prop in Hs as [Hc Hr]. specialize (IH Hr).
  rewrite collapse_ws_cons. destruct (is_space c).
  - destruct r as [|c' r']; [simpl; rewrite Hsp; reflexivity|].
    destruct (is_space c'); [exact IH|].
    change (p " "%char && Chatbot.all_chars p (collapse_ws (String c' r')) = true).
    rewrite Hsp, IH. reflexivity.
  - change (p c && Chatbot.all_chars p (collapse_ws r) = true). rewrite Hc, IH. reflexivity.
Qed.

Lemma drop_special_chars (p : ascii -> bool) (s : string) :
  Chatbot.all_chars p s = true -> Chatbot.all_chars p (drop_special s) = true.
Proof.
  induction s as [|c r IH]; simpl; [reflexivity|].
  intros Hs. apply andb_prop in Hs as [Hc Hr].
  destruct (is_word_char c || is_space c || is_kept_punct c); [|exact (IH Hr)].
  simpl. rewrite Hc, (IH Hr). reflexivity.
Qed.

Lemma all_chars_both (p q : ascii -> bool) (s : string) :
  Chatbot.all_chars p s = true -> Chatbot.all_chars q s = true ->
  Chatbot.all_chars (fun c => p c && q c) s = true.
Proof.
  induction s as [|c r IH]; simpl; [reflexivity|].
  intros Hp Hq. apply andb_prop in Hp as [Hpc Hpr]. apply andb_prop in Hq as [Hqc Hqr].
  rewrite Hpc, Hqc, (IH Hpr Hqr). reflexivity.
Qed.

Lemma clean_ascii_is_plain (c : ascii) :
  clean_char c && is_ascii_char c = true -> plain_char c = true.
Proof.
  unfold clean_char, is_word_char, is_ascii_char, plain_char. intros Hc.
  apply andb_prop in Hc as [Hclean Hascii]. apply Nat.ltb_lt in Hascii.
  assert (Hhigh : (128 <=? nat_of_ascii c)%nat = false) by (apply Nat.leb_gt; exact Hascii).
  rewrite Hhigh, orb_false_r in Hclean. exact Hclean.
Qed.

(** X7. On ASCII text, where the model of the two regular expressions is
    exact, the text [clean_text] returns consists of letters, digits,
    underscores, the five punctuation marks [.,!?-] and the space: it
    has no tab, no line break and no other symbol; and it neither starts
    nor ends with white space. *)
Theorem clean_text_alphabet (text : string) :
  ascii_text text = true ->
  Chatbot.all_chars plain_char (clean_text text) = true
  /\ match clean_text text with
     | String c _ => is_space c = false
     | EmptyString => True
     end
  /\ match last_char (clean_text text) with
     | Some c => is_space c = false
     | None => True
     end.
Proof.
  intros Hascii. destruct (clean_text_bytes text) as (Hchars & Hfirst & Hlast).
  split; [|split; assumption].
  apply (all_chars_impl (fun c => clean_char c && is_ascii_char c)).
  - apply clean_ascii_is_plain.
  - apply all_chars_both; [exact Hchars|].
    unfold clean_text, strip.
    apply rstrip_ws_chars, lstrip_ws_chars, drop_special_chars, collapse_ws_chars;
      [reflexivity|exact Hascii].
Qed.

Lemma clean_text_alphabet_witness :
  Chatbot.all_chars plain_char (clean_text " Rain:  10 mm/h (est.) ") = true
  /\ match clean_text " Rain:  10 mm/h (est.) " with
     | String c _ => is_space c = false
     | EmptyString => True
     end
  /\ match last_char (clean_text " Rain:  10 mm/h (est.) ") with
     | Some c => is_space c = false
     | None => True
     end.
Proof. apply (clean_text_alphabet " Rain:  10 mm/h (est.) "). reflexivity. Defined.

(** Cleaning a cleaned text can still change it: removing a symbol
    leaves two spaces side by side, which the next pass merges. *)
Example clean_text_not_idempotent :
  clean_text "a @ b" = String "a" (String " " (String " " "b"))
  /\ clean_text (clean_text "a @ b") = "a b".
Proof. split; reflexivity. Qed.

End CleaningFacts.

(** ** More on the store *)

Module StoreFacts.
Import Indexer Loader Vocabulary.

Section Rows.
Context `{Postgres}.

Lemma prepare_document_url (document d : Doc) :
  prepare_document document = Ok d -> doc_url d = doc_url document.
Proof.
  unfold prepare_document.
  destruct (fromisoformat (doc_crawl_timestamp document)); simpl; [|discriminate].
  intros Hd. injection Hd as <-. reflexivity.
Qed.

(** A successful [index_document] is one [upsert] of the prepared
    document on a working connection. *)
Lemma index_document_ok (st st' : Store) (document : Doc) :
  index_document st document = (st', Ok tt) ->
  exists d, prepare_document document = Ok d
            /\ doc_url d = doc_url document
            /\ fault st = None
            /\ st' = {| rows := upsert d (rows st); fault := None |}.
Proof.
  unfold index_document. intros Hrun.
  destruct (prepare_document document) as [d|e] eqn:Hp; simpl in Hrun; [|discriminate].
  unfold cursor_upsert in Hrun.
  destruct (fault st) eqn:Hf; [discriminate|].
  destruct (doc_relevance d); [discriminate|].
  injection Hrun as <-. exists d. split; [reflexivity|].
  split; [exact (prepare_document_url _ _ Hp)|]. split; reflexivity.
Qed.

Lemma index_document_raise (st st' : Store) (document : Doc) (e : exn) :
  index_document st document = (st', Raise e) -> st' = st.
Proof.
  unfold index_document.
  destruct (let! d := prepare_document document in cursor_upsert st d);
    intros Hrun; [discriminate|]. injection Hrun as <- _. reflexivity.
Qed.

Lemma index_document_dom (st st' : Store) (document : Doc) :
  index_document st document = (st', Ok tt) ->
  dom (rows st') = {[ doc_url document ]} ∪ dom (rows st).
Proof.
  intros Hrun. destruct (index_document_ok _ _ _ Hrun) as (d & _ & Hu & _ & ->).
  simpl. unfold upsert. rewrite dom_insert_L, Hu. reflexivity.
Qed.

(** X8. A successful [index_document] touches one row, the one keyed by
    the URL of the document: that key is in the table afterwards, the
    table has no other new key, and every other row is what it was. *)
Theorem index_document_touches_one_row (st st' : Store) (document : Doc) :
  index_document st document = (st', Ok tt) ->
  dom (rows st') = {[ doc_url document ]} ∪ dom (rows st)
  /\ forall u, u <> doc_url document -> rows st' !! u = rows st !! u.
Proof.
  intros Hrun. split; [exact (index_document_dom _ _ _ Hrun)|].
  destruct (index_document_ok _ _ _ Hrun) as (d & _ & Hu & _ & ->).
  intros u Hne. simpl. unfold upsert. rewrite lookup_insert_ne; [reflexivity|].
  rewrite Hu. congruence.
Qed.

Lemma merge_field_twice (f : field) (old : option field) :
  merge_field f (Some (merge_field f old)) = merge_field f old.
Proof. destruct f, old; reflexivity. Qed.

Lemma upsert_twice (d : Doc) (table : gmap string Doc) :
  upsert d (upsert d table) = upsert d table.
Proof.
  unfold upsert. rewrite lookup_insert_eq, insert_insert_eq. simpl.
  rewrite !merge_field_twice. reflexivity.
Qed.

(** A dictionary with the same contents, indexed after the first, gives
    the store the first gave. *)
Lemma index_document_again (st st' : Store) (document : Doc) :
  index_document st document = (st', Ok tt) ->
  index_document st' document = (st', Ok tt).
Proof.
  intros Hrun. destruct (index_document_ok _ _ _ Hrun) as (d & Hp & _ & _ & ->).
  unfold index_document. rewrite Hp. simpl. unfold cursor_upsert. simpl.
  destruct (doc_relevance d) eqn:Hr.
  - unfold index_document in Hrun. rewrite Hp in Hrun. simpl in Hrun.
    unfold cursor_upsert in Hrun. destruct (fault st); [discriminate|].
    rewrite Hr in Hrun. discriminate.
  - rewrite upsert_twice. reflexivity.
Qed.

Lemma bulk_index_dom (documents : list Doc) :
  forall st st', bulk_index st documents = (st', Ok tt) ->
    dom (rows st') = dom (rows st) ∪ list_to_set (map doc_url documents).
Proof.
  induction documents as [|doc rest IH]; intros st st' Hrun; simpl in *.
  - injection Hrun as <-. rewrite union_empty_r_L. reflexivity.
  - destruct (index_document st doc) as [s [[]|e]] eqn:Hi; [|discriminate].
    rewrite (IH _ _ Hrun), (index_document_dom _ _ _ Hi).
    rewrite (comm_L (∪) {[ doc_url doc ]} (dom (rows st))), (assoc_L (∪)). reflexivity.
Qed.

Lemma upsert_same_row (d : Doc) (table t2 : gmap string Doc) :
  t2 !! doc_url d = upsert d table !! doc_url d -> upsert d t2 = t2.
Proof.
  unfold upsert at 1. rewrite lookup_insert_eq. intros Hrow.
  unfold upsert. rewrite Hrow. simpl. rewrite !merge_field_twice.
  apply insert_id. exact Hrow.
Qed.

(** Indexing a document whose row is already what indexing it gave
    leaves the store as it is. *)
Lemma index_document_fixed (st st' s : Store) (document : Doc) :
  index_document st document = (st', Ok tt) ->
  fault s = None ->
  rows s !! doc_url document = rows st' !! doc_url document ->
  index_document s document = (s, Ok tt).
Proof.
  intros Hrun Hf Hrow. destruct (index_document_ok _ _ _ Hrun) as (d & Hp & Hu & _ & ->).
  assert (Hr : doc_relevance d = None).
  { unfold index_document in Hrun. rewrite Hp in Hrun. simpl in Hrun.
    unfold cursor_upsert in Hrun. destruct (fault st); [discriminate|].
    destruct (doc_relevance d); [discriminate|reflexivity]. }
  unfold index_document. rewrite Hp. simpl. unfold cursor_upsert. rewrite Hf, Hr.
  simpl in Hrow. rewrite <- Hu in Hrow. rewrite (upsert_same_row d (rows st) (rows s) Hrow).
  destruct s as [r f]. simpl in *. subst f. reflexivity.
Qed.

Lemma bulk_index_frame (documents : list Doc) :
  forall st st', bulk_index st documents = (st', Ok tt) ->
    forall u, u ∉ map doc_url documents -> rows st' !! u = rows st !! u.
Proof.
  induction documents as [|doc rest IH]; intros st st' Hrun u Hu; simpl in Hrun.
  - injection Hrun as <-. reflexivity.
  - destruct (index_document st doc) as [s [[]|e]] eqn:Hi; [|discriminate].
    simpl in Hu. apply not_elem_of_cons in Hu as [Hne Hrest].
    rewrite (IH _ _ Hrun u Hrest).
    destruct (index_document_ok _ _ _ Hi) as (d & _ & Hd & _ & ->).
    simpl. unfold upsert. apply lookup_insert_ne. congruence.
Qed.

Lemma bulk_index_fault (documents : list Doc) :
  forall st st', bulk_index st documents = (st', Ok tt) -> fault st = None ->
    fault st' = None.
Proof.
  induction documents as [|doc rest IH]; intros st st' Hrun Hf; simpl in Hrun.
  - injection Hrun as <-. exact Hf.
  - destruct (index_document st doc) as [s [[]|e]] eqn:Hi; [|discriminate].
    apply (IH _ _ Hrun). destruct (index_document_ok _ _ _ Hi) as (d & _ & _ & _ & ->).
    reflexivity.
Qed.

Lemma bulk_index_settled (documents : list Doc) :
  forall st st1, bulk_index st documents = (st1, Ok tt) ->
    NoDup (map doc_url documents) ->
    forall s, fault s = None ->
      (forall d, d ∈ documents -> rows s !! doc_url d = rows st1 !! doc_url d) ->
      bulk_index s documents = (s, Ok tt).
Proof.
  induction documents as [|doc rest IH]; intros st st1 Hrun Hnd s Hf Hrows; [reflexivity|].
  simpl in Hrun, Hnd. apply NoDup_cons in Hnd as [Hfresh Hnd].
  destruct (index_document st doc) as [sd [[]|e]] eqn:Hi; [|discriminate].
  assert (Hdoc : index_document s doc = (s, Ok tt)).
  { apply (index_document_fixed st sd s doc Hi Hf).
    rewrite (Hrows doc) by (left).
    apply (bulk_index_frame rest sd st1 Hrun). exact Hfresh. }
  simpl. rewrite Hdoc. apply (IH sd st1 Hrun Hnd s Hf).
  intros d Hd. apply Hrows. right. exact Hd.
Qed.

(** X9. Loading the same snapshot into the store once more changes
    nothing: when [index_from_file] has succeeded on a snapshot whose
    documents have pairwise distinct URLs, running it again on that
    snapshot succeeds and leaves the store exactly as the first run left
    it.  Each run reads the file anew, so each works on dictionaries of
    its own. *)
Theorem snapshot_loaded_twice (st st1 : Store) (documents : list Doc) :
  NoDup (map doc_url documents) ->
  index_from_file st (Ok documents) = (st1, Ok tt) ->
  index_from_file st1 (Ok documents) = (st1, Ok tt).
Proof.
  intros Hnd Hrun. unfold index_from_file, create_index in *.
  destruct (fault st) eqn:Hf; [discriminate|].
  pose proof (bulk_index_fault _ _ _ Hrun Hf) as Hf1. rewrite Hf1.
  apply (bulk_index_settled documents st st1 Hrun Hnd st1 Hf1). reflexivity.
Qed.

(** X10. After a successful [bulk_index] the keys of the table are the
    keys it had and the URLs of the documents, nothing else, and a row
    under any other key is what it was. *)
Theorem bulk_index_keys (st st' : Store) (documents : list Doc) :
  bulk_index st documents = (st', Ok tt) ->
  dom (rows st') = dom (rows st) ∪ list_to_set (map doc_url documents)
  /\ forall u, u ∉ map doc_url documents -> rows st' !! u = rows st !! u.
Proof.
  intros Hrun. split; [exact (bulk_index_dom _ _ _ Hrun)|].
  revert st Hrun. induction documents as [|doc rest IH]; intros st Hrun u Hu; simpl in Hrun.
  - injection Hrun as <-. reflexivity.
  - destruct (index_document st doc) as [s [[]|e]] eqn:Hi; [|discriminate].
    simpl in Hu. apply not_elem_of_cons in Hu as [Hne Hrest].
    rewrite (IH _ Hrun u Hrest).
    destruct (index_document_ok _ _ _ Hi) as (d & _ & Hd & _ & ->).
    simpl. unfold upsert. apply lookup_insert_ne. congruence.
Qed.

(** X11. [bulk_index] stops at the first document that cannot be
    indexed: when it raises, the documents before the failing one are
    in the store, the failing one and those after it are not written,
    and the error is the one [index_document] raised for it. *)
Theorem bulk_index_stops_at_first_failure (st st' : Store) (documents : list Doc)
    (e : exn) :
  bulk_index st documents = (st', Raise e) ->
  exists done failing rest,
    documents = done ++ failing :: rest
    /\ bulk_index st done = (st', Ok tt)
    /\ index_document st' failing = (st', Raise e).
Proof.
  revert st. induction documents as [|doc rest IH]; intros st Hrun; simpl in Hrun;
    [discriminate|].
  destruct (index_document st doc) as [s [[]|e0]] eqn:Hi.
  - destruct (IH _ Hrun) as (done & failing & rest' & -> & Hdone & Hfail).
    exists (doc :: done), failing, rest'. split; [reflexivity|].
    split; [simpl; rewrite Hi; exact Hdone|exact Hfail].
  - injection Hrun as <- <-. pose proof (index_document_raise _ _ _ _ Hi) as ->.
    exists [], doc, rest. split; [reflexivity|]. split; [reflexivity|exact Hi].
Qed.

Lemma index_from_file_on_fault (st : Store) (msg : string) (file : result (list Doc)) :
  fault st = Some msg ->
  exists e, index_from_file st file = (st, Raise e).
Proof.
  intros Hf. unfold index_from_file, create_index. rewrite Hf.
  destruct file as [documents|e]; eauto.
Qed.

(** X12. [index_from_file] succeeds only when the snapshot could be
    read and the connection works; the keys of the table are then the
    keys it had and the URLs of the documents of the snapshot. *)
Theorem index_from_file_success (st st' : Store) (file : result (list Doc)) :
  index_from_file st file = (st', Ok tt) ->
  exists documents,
    file = Ok documents
    /\ fault st = None
    /\ dom (rows st') = dom (rows st) ∪ list_to_set (map doc_url documents).
Proof.
  unfold index_from_file, create_index. intros Hrun.
  destruct file as [documents|e]; [|discriminate].
  destruct (fault st); [discriminate|].
  exists documents. split; [reflexivity|]. split; [reflexivity|].
  exact (bulk_index_dom _ _ _ Hrun).
Qed.

(** X13. Crawl, then load the snapshot into an empty table: when both
    succeed the table has exactly one row per extracted page, and the
    row of a page is keyed by the URL the page was crawled under. *)
Theorem crawl_then_index_one_row_per_page (B : Scraper.Browser) (base : string)
    (s : Scraper.State) (st st' : Store) :
  Scraper.start_crawling (Scraper.init base) = Some s ->
  rows st = ∅ ->
  index_from_file st (Ok (Scraper.content_data s)) = (st', Ok tt) ->
  size (rows st') = length (Scraper.content_data s)
  /\ forall d, d ∈ Scraper.content_data s ->
       exists row, rows st' !! doc_url d = Some row.
Proof.
  intros Hcrawl Hempty Hload.
  pose proof (ScraperFacts.start_crawling_extracts_once base s Hcrawl) as Hnd.
  unfold index_from_file in Hload.
  destruct (create_index st); [|discriminate].
  pose proof (bulk_index_dom _ _ _ Hload) as Hdom.
  rewrite Hempty, dom_empty_L, union_empty_l_L in Hdom. split.
  - rewrite <- size_dom, Hdom, size_list_to_set by exact Hnd.
    unfold Scraper.urls_of. apply length_map.
  - intros d Hd. apply elem_of_dom. rewrite Hdom. apply elem_of_list_to_set.
    apply list_elem_of_fmap_2 with (f := doc_url) in Hd. exact Hd.
Qed.

End Rows.

Lemma index_document_touches_one_row_witness :
  dom (rows (fst (@index_document Fixtures.silent_db Fixtures.empty_store
                    MoreFixtures.rain_doc)))
  = {[ "a" ]} ∪ dom (rows Fixtures.empty_store)
  /\ forall u, u <> "a" ->
       rows (fst (@index_document Fixtures.silent_db Fixtures.empty_store
                    MoreFixtures.rain_doc)) !! u
       = rows Fixtures.empty_store !! u.
Proof.
  apply (@index_document_touches_one_row Fixtures.silent_db Fixtures.empty_store
           (fst (@index_document Fixtures.silent_db Fixtures.empty_store
                   MoreFixtures.rain_doc)) MoreFixtures.rain_doc).
  vm_compute. reflexivity.
Defined.

Lemma index_document_again_witness :
  @index_document Fixtures.silent_db
    (fst (@index_document Fixtures.silent_db Fixtures.empty_store MoreFixtures.rain_doc))
    MoreFixtures.rain_doc
  = (fst (@index_document Fixtures.silent_db Fixtures.empty_store MoreFixtures.rain_doc),
     Ok tt).
Proof.
  apply (@index_document_again Fixtures.silent_db Fixtures.empty_store).
  vm_compute. reflexivity.
Defined.

Lemma snapshot_loaded_twice_witness :
  @index_from_file Fixtures.silent_db
    (fst (@index_from_file Fixtures.silent_db Fixtures.empty_store
            (Ok [MoreFixtures.rain_doc; MoreFixtures.snow_doc])))
    (Ok [MoreFixtures.rain_doc; MoreFixtures.snow_doc])
  = (fst (@index_from_file Fixtures.silent_db Fixtures.empty_store
            (Ok [MoreFixtures.rain_doc; MoreFixtures.snow_doc])),
     Ok tt).
Proof.
  apply (@snapshot_loaded_twice Fixtures.silent_db Fixtures.empty_store).
  - simpl. apply NoDup_cons. split; [|apply NoDup_singleton].
    intros Hin. apply list_elem_of_singleton in Hin. discriminate Hin.
  - vm_compute. reflexivity.
Defined.

Lemma bulk_index_keys_witness :
  dom (rows (fst (@bulk_index Fixtures.silent_db Fixtures.empty_store
                    [MoreFixtures.rain_doc; MoreFixtures.snow_doc; MoreFixtures.rain_doc])))
  = dom (rows Fixtures.empty_store) ∪ list_to_set ["a"; "b"; "a"]
  /\ forall u, u ∉ ["a"; "b"; "a"] ->
       rows (fst (@bulk_index Fixtures.silent_db Fixtures.empty_store
                    [MoreFixtures.rain_doc; MoreFixtures.snow_doc; MoreFixtures.rain_doc]))
       !! u
       = rows Fixtures.empty_store !! u.
Proof.
  apply (@bulk_index_keys Fixtures.silent_db Fixtures.empty_store
           (fst (@bulk_index Fixtures.silent_db Fixtures.empty_store
                   [MoreFixtures.rain_doc; MoreFixtures.snow_doc; MoreFixtures.rain_doc]))
           [MoreFixtures.rain_doc; MoreFixtures.snow_doc; MoreFixtures.rain_doc]).
  vm_compute. reflexivity.
Defined.

Lemma bulk_index_stops_at_first_failure_witness :
  exists done failing rest,
    [MoreFixtures.rain_doc; MoreFixtures.undated_doc "c"; MoreFixtures.snow_doc]
    = done ++ failing :: rest
    /\ @bulk_index MoreFixtures.strict_db Fixtures.empty_store done
       = (fst (@bulk_index MoreFixtures.strict_db Fixtures.empty_store
                 [MoreFixtures.rain_doc; MoreFixtures.undated_doc "c"; MoreFixtures.snow_doc]),
          Ok tt)
    /\ @index_document MoreFixtures.strict_db
         (fst (@bulk_index MoreFixtures.strict_db Fixtures.empty_store
                 [MoreFixtures.rain_doc; MoreFixtures.undated_doc "c"; MoreFixtures.snow_doc]))
         failing
       = (fst (@bulk_index MoreFixtures.strict_db Fixtures.empty_store
                 [MoreFixtures.rain_doc; MoreFixtures.undated_doc "c"; MoreFixtures.snow_doc]),
          Raise ValueError).
Proof.
  apply (@bulk_index_stops_at_first_failure MoreFixtures.strict_db Fixtures.empty_store).
  vm_compute. reflexivity.
Defined.

Lemma index_from_file_success_witness :
  exists documents,
    Ok [MoreFixtures.rain_doc; MoreFixtures.snow_doc] = Ok documents
    /\ fault Fixtures.empty_store = None
    /\ dom (rows (fst (@index_from_file Fixtures.silent_db Fixtures.empty_store
                         (Ok [MoreFixtures.rain_doc; MoreFixtures.snow_doc]))))
       = dom (rows Fixtures.empty_store) ∪ list_to_set (map doc_url documents).
Proof.
  apply (@index_from_file_success Fixtures.silent_db Fixtures.empty_store).
  vm_compute. reflexivity.
Defined.

Lemma crawl_then_index_one_row_per_page_witness :
  match @Scraper.start_crawling Fixtures.cyclic_site (Scraper.init Fixtures.seed) with
  | Some s =>
      match @index_from_file Fixtures.silent_db Fixtures.empty_store
              (Ok (Scraper.content_data s)) with
      | (st', Ok _) =>
          size (rows st') = length (Scraper.content_data s)
          /\ forall d, d ∈ Scraper.content_data s ->
               exists row, rows st' !! doc_url d = Some row
      | (_, Raise _) => False
      end
  | None => False
  end.
Proof.
  destruct (@Scraper.start_crawling Fixtures.cyclic_site (Scraper.init Fixtures.seed))
    as [s|] eqn:Hcrawl; [|vm_compute in Hcrawl; discriminate Hcrawl].
  destruct (@index_from_file Fixtures.silent_db Fixtures.empty_store
              (Ok (Scraper.content_data s))) as [st' [[]|e]] eqn:Hload.
  - exact (@crawl_then_index_one_row_per_page Fixtures.silent_db Fixtures.cyclic_site
             Fixtures.seed s Fixtures.empty_store st' Hcrawl eq_refl Hload).
  - vm_compute in Hcrawl. injection Hcrawl as <-. vm_compute in Hload. discriminate Hload.
Defined.

End StoreFacts.

(** ** The handlers of the API *)

Module ApiFacts.
Import Indexer Api.

Section Handlers.
Context `{Postgres}.

Lemma search_outcome (st : Store) (query : string) (category : option string) (size : Z) :
  exists found,
    snd (Indexer.search st query category size) = Ok found
    /\ match fault st with Some _ => found = [] | None => True end.
Proof.
  unfold Indexer.search, cursor_select.
  destruct (fault st) as [msg|]; [exists []; split; reflexivity|].
  destruct (fts_select (rows st) (Clean.clean_text query) (category_filter category) size)
    as [msg|found]; eexists; split; reflexivity || exact I.
Qed.

Lemma guarded_200 {A : Type} (st : Store) (query : string) (category : option string)
    (size : Z) (k : list Doc -> A) :
  exists body,
    guarded st query category size k = Http200 body
    /\ match fault st with Some _ => body = k [] | None => True end.
Proof.
  unfold guarded. destruct (search_outcome st query category size) as (found & -> & Hf).
  exists (k found). split; [reflexivity|].
  destruct (fault st); [rewrite Hf; reflexivity|exact I].
Qed.

(** X14. No handler ever raises its [HTTPException]: [indexer.search]
    catches every error itself, so the [except] clauses of the handlers
    are never entered.  Each handler returns a body, and when the
    connection to the store is down that body is the empty list. *)
Theorem handlers_never_raise (st : Store) (query : string)
    (category : option string) (size : Z) :
  (exists body, Api.search st query category size = Http200 body
                /\ match fault st with Some _ => body = [] | None => True end)
  /\ (exists body, get_announcements st = Http200 body
                   /\ match fault st with Some _ => body = [] | None => True end)
  /\ (exists body, get_services st = Http200 body
                   /\ match fault st with Some _ => body = [] | None => True end)
  /\ (exists body, get_satellite_data st = Http200 body
                   /\ match fault st with Some _ => body = [] | None => True end).
Proof.
  unfold Api.search, get_announcements, get_services, get_satellite_data.
  repeat split; apply guarded_200.
Qed.

End Handlers.

(** X15. The categories the API lists are exactly the values
    [determine_category] can take: each of the seven is the category of
    some URL, and no URL has another. *)
Theorem categories_are_the_range (c : string) :
  In c categories <-> exists url, Category.determine_category url = c.
Proof.
  split.
  - unfold categories. simpl.
    intros [<-|[<-|[<-|[<-|[<-|[<-|[<-|[]]]]]]]].
    + exists "/missions/". reflexivity.
    + exists "/catalog/". reflexivity.
    + exists "/galleries/". reflexivity.
    + exists "/data-access/". reflexivity.
    + exists "/reports/". reflexivity.
    + exists "/services/". reflexivity.
    + exists "". reflexivity.
  - intros [url <-]. unfold Category.determine_category, categories.
    repeat match goal with
           | |- context [if PyStr.str_in ?m (PyStr.lower url) then _ else _] =>
               destruct (PyStr.str_in m (PyStr.lower url))
           end; simpl; tauto.
Qed.

End ApiFacts.

(** ** More on scoring and ranking *)

Module RankingFacts.
Import PyStr PyStrFacts Chatbot Vocabulary ScoringFacts SummaryFacts.

Section Ranking.
Context `{Nltk}.

Lemma title_points_nonneg (title keyword : string) : 0 <= title_points title keyword.
Proof. unfold title_points. repeat match goal with |- context [if ?b then _ else _] => destruct b end; lia. Qed.

Lemma description_points_nonneg (desc keyword : string) :
  0 <= description_points desc keyword.
Proof. unfold description_points. repeat match goal with |- context [if ?b then _ else _] => destruct b end; lia. Qed.

Lemma content_points_nonneg (content : string) (keywords : list string) (keyword : string) :
  0 <= content_points content keywords keyword.
Proof.
  unfold content_points. destruct (str_in keyword content); [|lia].
  apply accumulate_nonneg; [|lia]. intros other. unfold proximity_points.
  repeat match goal with |- context [if ?b then _ else _] => destruct b end; lia.
Qed.

Lemma category_points_nonneg (category keyword : string) :
  0 <= category_points category keyword.
Proof. unfold category_points. destruct (str_in keyword category); lia. Qed.

Lemma context_points_nonneg (content context : string) :
  0 <= context_points content context.
Proof.
  unfold context_points. apply accumulate_nonneg; [|lia].
  intros k. destruct (str_in k content); lia.
Qed.

(** X16. A score is never negative. *)
Theorem calculate_relevance_nonneg (h : list string) (doc : Doc) (keywords : list string)
    (r : Z) :
  calculate_relevance h doc keywords = Ok r -> 0 <= r.
Proof.
  unfold calculate_relevance.
  destruct (get_lower (doc_title doc)) as [title|]; simpl; [|discriminate].
  destruct (get_lower (doc_meta_description doc)) as [desc|]; simpl; [|discriminate].
  destruct (get_lower (doc_text_content doc)) as [content|]; simpl; [|discriminate].
  destruct (get_lower (doc_category doc)) as [category|]; simpl; [|discriminate].
  intros Hr. injection Hr as <-.
  apply accumulate_nonneg; [apply context_points_nonneg|].
  apply accumulate_nonneg; [apply category_points_nonneg|].
  apply accumulate_nonneg; [apply content_points_nonneg|].
  apply accumulate_nonneg; [apply description_points_nonneg|].
  apply accumulate_nonneg; [apply title_points_nonneg|lia].
Qed.

(** X17. The partial-match branches never add anything: a keyword found
    in a word of the title (of the description) is found in the title
    (in the description) and has taken the first branch.  A keyword is
    worth 3.0 or nothing on the title and 1.5 or nothing on the
    description; 2.0 and 1.0 are never awarded. *)
Theorem partial_match_never_scores (text keyword : string) :
  title_points text keyword = (if str_in keyword text then 30 else 0)
  /\ description_points text keyword = (if str_in keyword text then 15 else 0).
Proof.
  unfold title_points, description_points.
  destruct (str_in keyword text) eqn:E; [split; reflexivity|].
  destruct (existsb (fun word => str_in keyword word) (split_ws text)) eqn:Ex;
    [|split; reflexivity].
  apply word_match_is_match in Ex. congruence.
Qed.

(** *** The sort *)

Lemma insert_desc_sorted (x : Doc) (l : list Doc) :
  StronglySorted relevance_ge l -> StronglySorted relevance_ge (insert_desc by_relevance x l).
Proof.
  induction 1 as [|y r Hr IH Hy]; simpl; [repeat constructor|].
  unfold by_relevance at 1. destruct (relevance_or_0 y <=? relevance_or_0 x) eqn:E.
  - apply Z.leb_le in E. constructor; [constructor; assumption|].
    constructor; [exact E|]. eapply Forall_impl; [exact Hy|].
    intros z Hz. unfold relevance_ge in *. lia.
  - apply Z.leb_gt in E. constructor; [exact IH|].
    rewrite insert_desc_perm. constructor; [unfold relevance_ge; lia|exact Hy].
Qed.

Lemma insert_desc_filter (k : Z) (x : Doc) (l : list Doc) :
  List.filter (fun d => relevance_or_0 d =? k) (insert_desc by_relevance x l)
  = List.filter (fun d => relevance_or_0 d =? k) (x :: l).
Proof.
  induction l as [|y r IH]; [reflexivity|].
  simpl insert_desc. unfold by_relevance at 1.
  destruct (relevance_or_0 y <=? relevance_or_0 x) eqn:E; [reflexivity|].
  apply Z.leb_gt in E. simpl in *. rewrite IH.
  destruct (relevance_or_0 x =? k) eqn:Ex; [|reflexivity].
  apply Z.eqb_eq in Ex.
  assert (Ey : (relevance_or_0 y =? k) = false) by (apply Z.eqb_neq; lia).
  rewrite Ey. reflexivity.
Qed.

(** X18. The sort of the results is a stable descending sort: the
    sorted list is ordered by relevance, the largest first; it has the
    same documents; and documents of equal relevance keep the order they
    had. *)
Theorem sort_by_relevance_stable (results : list Doc) :
  StronglySorted relevance_ge (sort_desc by_relevance results)
  /\ sort_desc by_relevance results ≡ₚ results
  /\ forall k, List.filter (fun d => relevance_or_0 d =? k) (sort_desc by_relevance results)
               = List.filter (fun d => relevance_or_0 d =? k) results.
Proof.
  split; [|split; [apply sort_desc_perm|]].
  - induction results as [|x l IH]; simpl; [constructor|]. apply insert_desc_sorted, IH.
  - intros k. induction results as [|x l IH]; [reflexivity|].
    simpl sort_desc. rewrite insert_desc_filter. simpl. rewrite IH. reflexivity.
Qed.

(** *** Key sentences *)

(** X19. [extract_key_sentences] returns at most [num_sentences]
    sentences, each of them one of the sentences of the text. *)
Theorem key_sentences_are_sentences (text : string) (num_sentences : nat) :
  (length (extract_key_sentences text num_sentences) <= num_sentences)%nat
  /\ Forall (fun s => s ∈ sent_tokenize text) (extract_key_sentences text num_sentences).
Proof.
  unfold extract_key_sentences.
  set (scores := map (fun s => (sentence_score (flat_map content_words (sent_tokenize text)) s, s))
                   (sent_tokenize text)).
  split.
  - rewrite length_map, length_take. lia.
  - apply Forall_forall. intros s Hs.
    apply list_elem_of_In, in_map_iff in Hs as ([sc s'] & <- & Hin).
    apply list_elem_of_In in Hin. apply elem_of_take in Hin as (i & Hin & _).
    apply list_elem_of_lookup_2 in Hin. rewrite sort_desc_perm in Hin.
    unfold scores in Hin. apply list_elem_of_In, in_map_iff in Hin as (s0 & Heq & Hs0).
    injection Heq as _ <-. simpl. apply list_elem_of_In, Hs0.
Qed.

End Ranking.

End RankingFacts.

(** ** What the summarizer does to the list it is given *)

Module EffectFacts.
Import Chatbot Vocabulary SummaryFacts RankingFacts.

Section Effects.
Context `{Nltk}.




End Effects.

End EffectFacts.

(** ** Grouping and the conversation *)

Module SessionFacts.
Import Chatbot Vocabulary SummaryFacts.

Lemma group_add_keys (k : option string) (d : Doc) (g : list (option string * list Doc)) :
  map fst (group_add k d g)
  = if bool_decide (k ∈ map fst g) then map fst g else map fst g ++ [k].
Proof.
  induction g as [|[k' ds] g IH]; simpl; [reflexivity|].
  destruct (bool_decide (k = k')) eqn:E.
  - apply bool_decide_eq_true in E. subst k'. simpl.
    rewrite bool_decide_eq_true_2 by (left). reflexivity.
  - apply bool_decide_eq_false in E. simpl. rewrite IH.
    destruct (bool_decide (k ∈ map fst g)) eqn:Eg.
    + apply bool_decide_eq_true in Eg.
      rewrite bool_decide_eq_true_2 by (right; exact Eg). reflexivity.
    + apply bool_decide_eq_false in Eg.
      rewrite bool_decide_eq_false_2; [reflexivity|].
      intros Hin. apply elem_of_cons in Hin as [Hin|Hin]; [congruence|contradiction].
Qed.

Lemma group_add_groups (F F' : option string -> list Doc) (k : option string) (d : Doc) :
  (forall k', k' <> k -> F' k' = F k') ->
  F' k = F k ++ [d] ->
  forall g,
    NoDup (map fst g) ->
    (k ∉ map fst g -> F k = []) ->
    Forall (fun p => snd p = F (fst p) /\ snd p <> []) g ->
    Forall (fun p => snd p = F' (fst p) /\ snd p <> []) (group_add k d g).
Proof.
  intros Hother Hk g. induction g as [|[k' ds] g IH]; intros Hnd Hnew Hg; simpl.
  - constructor; [|constructor]. simpl. rewrite Hk, Hnew by apply not_elem_of_nil.
    split; [reflexivity|discriminate].
  - apply Forall_cons in Hg as [[Hds Hne] Hg]. simpl in Hds, Hne, Hnd.
    apply NoDup_cons in Hnd as [Hk' Hnd].
    destruct (bool_decide (k = k')) eqn:E.
    + apply bool_decide_eq_true in E. subst k'. constructor.
      * simpl. rewrite Hk, Hds. split; [reflexivity|]. destruct (F k); discriminate.
      * apply Forall_forall. intros p Hp.
        pose proof (proj1 (Forall_forall _ _) Hg p Hp) as [Hp1 Hp2].
        split; [|exact Hp2]. rewrite Hother; [exact Hp1|].
        intros Heq. apply Hk'. rewrite <- Heq.
        apply list_elem_of_In, in_map, list_elem_of_In, Hp.
    + apply bool_decide_eq_false in E. constructor.
      * simpl. rewrite (Hother k') by congruence. split; assumption.
      * apply IH; [exact Hnd| |exact Hg]. intros Hnot. apply Hnew.
        intros Hin. simpl in Hin.
        apply elem_of_cons in Hin as [Hin|Hin]; [exact (E Hin)|exact (Hnot Hin)].
Qed.

Lemma filter_snoc {A : Type} (p : A -> bool) (l : list A) (x : A) :
  List.filter p (l ++ [x]) = List.filter p l ++ (if p x then [x] else []).
Proof. rewrite List.filter_app. reflexivity. Qed.

Lemma filed_step (pre : list Doc) (g : list (option string * list Doc)) (d : Doc) :
  filed pre g -> filed (pre ++ [d]) (group_add (category_key d) d g).
Proof.
  intros (Hnd & Hg & Hcov). split; [|split].
  - rewrite group_add_keys. destruct (bool_decide (category_key d ∈ map fst g)) eqn:E;
      [exact Hnd|].
    apply bool_decide_eq_false in E. apply NoDup_app. split; [exact Hnd|].
    split; [|apply NoDup_singleton].
    intros k Hk Hin. apply list_elem_of_singleton in Hin. congruence.
  - refine (group_add_groups
              (fun k => List.filter (fun x => bool_decide (category_key x = k)) pre)
              (fun k => List.filter (fun x => bool_decide (category_key x = k)) (pre ++ [d]))
              (category_key d) d _ _ g Hnd _ Hg).
    + intros k' Hne. rewrite filter_snoc.
      rewrite bool_decide_eq_false_2 by congruence. apply app_nil_r.
    + rewrite filter_snoc. rewrite bool_decide_eq_true_2 by reflexivity. reflexivity.
    + intros Hnot. destruct (List.filter _ pre) as [|x l] eqn:Ef; [reflexivity|].
      exfalso. assert (Hx : In x (List.filter
                 (fun x => bool_decide (category_key x = category_key d)) pre))
        by (rewrite Ef; left; reflexivity).
      apply filter_In in Hx as [Hx Hkx]. apply bool_decide_eq_true in Hkx.
      apply Hnot. rewrite <- Hkx. apply Hcov, list_elem_of_In, Hx.
  - intros x Hx. rewrite group_add_keys. apply elem_of_app in Hx as [Hx|Hx].
    + specialize (Hcov x Hx). destruct (bool_decide _); [exact Hcov|].
      apply elem_of_app. left. exact Hcov.
    + apply list_elem_of_singleton in Hx. subst x.
      destruct (bool_decide (category_key d ∈ map fst g)) eqn:E.
      * apply bool_decide_eq_true in E. exact E.
      * apply elem_of_app. right. apply list_elem_of_singleton. reflexivity.
Qed.

(** X20. [categorize] files every document once: the category keys of
    the groups are distinct, each group is not empty and holds exactly
    the documents of its category in the order of the input, and every
    document has its group. *)
Theorem categorize_partitions (docs : list Doc) :
  NoDup (map fst (categorize docs))
  /\ Forall (fun p => snd p = List.filter (fun d => bool_decide (category_key d = fst p)) docs
                       /\ snd p <> []) (categorize docs)
  /\ forall d, d ∈ docs -> category_key d ∈ map fst (categorize docs).
Proof.
  change (filed docs (categorize docs)). unfold categorize.
  assert (Hgen : forall rest pre g, filed pre g ->
            filed (pre ++ rest)
              (fold_left (fun groups doc => group_add (get_or "General" (doc_category doc))
                                              doc groups) rest g)).
  { induction rest as [|d rest IH]; intros pre g Hf; simpl.
    - rewrite app_nil_r. exact Hf.
    - replace (pre ++ d :: rest) with ((pre ++ [d]) ++ rest)
        by (rewrite <- app_assoc; reflexivity).
      apply IH. apply (filed_step pre g d Hf). }
  apply (Hgen docs [] []). split; [constructor|]. split; [constructor|].
  intros d Hd. inversion Hd.
Qed.

Example categorize_first_seen_order :
  map (fun p => (fst p, map doc_url (snd p)))
    (categorize [MoreFixtures.rain_doc; MoreFixtures.undated_doc "c"; MoreFixtures.snow_doc])
  = [(Some "other", ["a"; "c"; "b"])].
Proof. reflexivity. Qed.

Section Conversation.
Context `{Nltk} `{Indexer.Postgres}.

Lemma chat_session (s : Session) (query : string) :
  fst (fst (chat s query))
  = {| context_history := next_history (context_history s) query; store := store s |}.
Proof.
  unfold chat, next_history.
  destruct (Indexer.search (store s) query None Indexer.default_size) as [log1 [results|e]];
    [|reflexivity].
  destruct (negb (Scraper.nonempty results)); [|reflexivity].
  destruct (Scraper.nonempty (preprocess_query query)); [|reflexivity].
  destruct (Indexer.search (store s) (PyStr.join " " (preprocess_query query)) None
              Indexer.default_size) as [log2 [results2|e2]]; reflexivity.
Qed.

(** X21. [chat] keeps the last five queries: when the history holds at
    most five, the history after a turn holds at most five, ends with
    the query of the turn, and is the end of the old history followed by
    that query; the store is not changed. *)
Theorem chat_keeps_last_five (s : Session) (query : string) :
  (length (context_history s) <= max_context_length)%nat ->
  (length (context_history (fst (fst (chat s query)))) <= max_context_length)%nat
  /\ last (context_history (fst (fst (chat s query)))) = Some query
  /\ context_history (fst (fst (chat s query))) `suffix_of` (context_history s ++ [query])
  /\ store (fst (fst (chat s query))) = store s.
Proof.
  intros Hlen. rewrite chat_session. simpl. unfold next_history.
  rewrite length_app. simpl length. unfold max_context_length in *.
  destruct (5 <? length (context_history s) + 1)%nat eqn:E.
  - apply Nat.ltb_lt in E. destruct (context_history s) as [|q0 h] eqn:Eh;
      [simpl in E; lia|].
    simpl in *. rewrite drop_0. rewrite length_app. simpl.
    split; [lia|]. split; [apply last_snoc|]. split; [|reflexivity].
    exists [q0]. reflexivity.
  - apply Nat.ltb_ge in E. rewrite length_app. simpl.
    split; [lia|]. split; [apply last_snoc|]. split; [|reflexivity].
    exists []. reflexivity.
Qed.

End Conversation.

End SessionFacts.

(** ** The properties on sample data *)

Module Samples.
Import Chatbot.

Lemma calculate_relevance_nonneg_witness :
  @calculate_relevance Fixtures.plain_nltk [] MoreFixtures.rain_doc ["rain"] = Ok 35
  /\ 0 <= 35.
Proof.
  split; [vm_compute; reflexivity|].
  apply (@RankingFacts.calculate_relevance_nonneg Fixtures.plain_nltk []
           MoreFixtures.rain_doc ["rain"] 35).
  vm_compute. reflexivity.
Defined.

Lemma chat_on_broken_store_witness :
  snd (@chat Fixtures.plain_nltk Fixtures.silent_db
         {| context_history := []; store := Fixtures.broken_store |} "rainfall")
  = Ok (no_results_message "rainfall").
Proof.
  apply (@SummaryFacts.chat_on_broken_store Fixtures.plain_nltk Fixtures.silent_db
           {| context_history := []; store := Fixtures.broken_store |}
           "connection refused" "rainfall").
  reflexivity.
Defined.

Lemma summarize_results_text_witness :
  exists s,
    snd (@summarize_results Fixtures.plain_nltk ["snow"]
           [MoreFixtures.snow_doc; MoreFixtures.rain_doc] "rain") = Ok s
    /\ s <> "".
Proof.
  apply (@SummaryFacts.summarize_results_text Fixtures.plain_nltk).
  repeat constructor.
Defined.

Lemma summarize_results_low_relevance_witness :
  snd (@summarize_results Fixtures.plain_nltk [] [MoreFixtures.snow_doc] "rain")
  = Ok (low_relevance_message "rain").
Proof.
  apply (@SummaryFacts.summarize_results_low_relevance Fixtures.plain_nltk).
  - discriminate.
  - constructor; [|constructor]. exists 0. split; [vm_compute; reflexivity|reflexivity].
Defined.

Lemma chat_keeps_last_five_witness :
  (length (context_history
             (fst (fst (@chat Fixtures.plain_nltk MoreFixtures.two_docs_db
                          {| context_history := ["a"; "b"; "c"; "d"; "e"];
                             store := Fixtures.empty_store |} "rain"))))
   <= max_context_length)%nat
  /\ last (context_history
             (fst (fst (@chat Fixtures.plain_nltk MoreFixtures.two_docs_db
                          {| context_history := ["a"; "b"; "c"; "d"; "e"];
                             store := Fixtures.empty_store |} "rain"))))
     = Some "rain"
  /\ context_history
       (fst (fst (@chat Fixtures.plain_nltk MoreFixtures.two_docs_db
                    {| context_history := ["a"; "b"; "c"; "d"; "e"];
                       store := Fixtures.empty_store |} "rain")))
     `suffix_of` (["a"; "b"; "c"; "d"; "e"] ++ ["rain"])
  /\ store (fst (fst (@chat Fixtures.plain_nltk MoreFixtures.two_docs_db
                        {| context_history := ["a"; "b"; "c"; "d"; "e"];
                           store := Fixtures.empty_store |} "rain")))
     = Fixtures.empty_store.
Proof.
  apply (@SessionFacts.chat_keeps_last_five Fixtures.plain_nltk MoreFixtures.two_docs_db
           {| context_history := ["a"; "b"; "c"; "d"; "e"];
              store := Fixtures.empty_store |} "rain").
  simpl. unfold max_context_length. lia.
Defined.

(** A turn of the conversation on a store that finds two documents: the
    oldest of six queries is dropped and the better document comes
    first. *)
Example chat_sample :
  context_history
    (fst (fst (@chat Fixtures.plain_nltk MoreFixtures.two_docs_db
                 {| context_history := ["a"; "b"; "c"; "d"; "e"];
                    store := Fixtures.empty_store |} "rain")))
  = ["b"; "c"; "d"; "e"; "rain"]
  /\ match snd (@chat Fixtures.plain_nltk MoreFixtures.two_docs_db
                  {| context_history := ["a"; "b"; "c"; "d"; "e"];
                     store := Fixtures.empty_store |} "rain") with
     | Ok answer => PyStr.str_in "Rainfall" answer = true
                    /\ PyStr.str_in "Snow" answer = false
     | Raise _ => False
     end.
Proof. vm_compute. repeat split. Qed.

End Samples.
